(** * gear/response.go: the response finalization engine

    A shallow embedding of [Response] (package gear) and of the parts of
    net/http and net/textproto it calls, followed by the properties of
    the commit gate ([WriteHeader]), the hook chains ([runHooks]), the
    write path ([Write]), the capability accessors and the header
    accessors ([Vary], [ResetHeader]). *)

From Stdlib Require Import ZArith String Ascii DecimalString Decimal.
From Stdlib Require Import DecimalZ DecimalPos.
From Stdlib.Strings Require Import Byte.
From stdpp Require Import gmap strings list fin_maps.

Local Open Scope string_scope.
Local Open Scope Z_scope.

(** ** Go values *)

(** A Go call either returns or panics (a failed single-value type
    assertion, a nil pointer dereference). *)
Inductive outcome (A : Type) : Type :=
| Returned (a : A)
| Panicked (msg : string).
Arguments Returned {A} a.
Arguments Panicked {A} msg.

Definition obind {A B} (m : outcome A) (k : A → outcome B) : outcome B :=
  match m with
  | Returned a => k a
  | Panicked msg => Panicked msg
  end.

Notation "x ←! m ; k" := (obind m (fun x => k))
  (at level 100, m at next level, right associativity, only parsing).

(** [net/http.Header] is [map[string][]string]. *)
Abbreviation Header := (gmap string (list string)).

(** The Go [error] values that travel through this file: [nil], an error
    produced by the transport, and [Err.WithMsg(msg)].  [Err] and
    [WithMsg] are declared in another file of package gear; the value is
    kept symbolic, tagged with its message. *)
Inductive error : Type :=
| nil_error
| transport_error (msg : string)
| Err_WithMsg (msg : string).

(** [strconv.Itoa]. *)
Definition Itoa (n : Z) : string := NilZero.string_of_int (Z.to_int n).

(** Reading a decimal numeral back, to say what number [Itoa] wrote. *)
Definition Atoi (s : string) : option Z :=
  Z.of_int <$> NilZero.int_of_string s.

(** [len(b)] for a byte slice, a Go [int]. *)
Definition len {A} (l : list A) : Z := Z.of_nat (length l).

(** ** net/textproto: canonical header keys *)

Module textproto.

Definition code (c : ascii) : nat := nat_of_ascii c.

Definition is_lower (c : ascii) : bool :=
  (97 <=? code c)%nat && (code c <=? 122)%nat.
Definition is_upper (c : ascii) : bool :=
  (65 <=? code c)%nat && (code c <=? 90)%nat.
Definition is_digit (c : ascii) : bool :=
  (48 <=? code c)%nat && (code c <=? 57)%nat.

Definition to_upper (c : ascii) : ascii :=
  if is_lower c then ascii_of_nat (code c - 32) else c.
Definition to_lower (c : ascii) : ascii :=
  if is_upper c then ascii_of_nat (code c + 32) else c.

(** [validHeaderFieldByte]: the RFC 7230 token characters. *)
Definition validHeaderFieldByte (c : ascii) : bool :=
  is_lower c || is_upper c || is_digit c ||
  bool_decide (code c ∈ [33; 35; 36; 37; 38; 39; 42; 43; 45; 46;
                         94; 95; 96; 124; 126]%nat).

(** The second loop of [canonicalMIMEHeaderKey]: upper case for the
    first letter and for a letter after a dash, lower case elsewhere. *)
Fixpoint canonicalize (upper : bool) (s : string) : string :=
  match s with
  | EmptyString => EmptyString
  | String c rest =>
      let c' := if upper then to_upper c else to_lower c in
      String c' (canonicalize (Ascii.eqb c' "-") rest)
  end.

(** [CanonicalMIMEHeaderKey]: a key holding a byte that is no token
    character (a space included) is returned unchanged. *)
Definition CanonicalMIMEHeaderKey (s : string) : string :=
  if forallb validHeaderFieldByte (list_ascii_of_string s)
  then canonicalize true s
  else s.

End textproto.

(** A key with its ASCII letters in lower case, the spelling HTTP/2 puts
    on the wire. *)
Fixpoint lowercase (s : string) : string :=
  match s with
  | EmptyString => EmptyString
  | String c rest => String (textproto.to_lower c) (lowercase rest)
  end.

(** The keys whose bytes are all ASCII. *)
Definition ascii_only (s : string) : bool :=
  forallb (fun c => (textproto.code c <? 128)%nat) (list_ascii_of_string s).

(** The keys made of token characters only, the ones
    [CanonicalMIMEHeaderKey] rewrites. *)
Definition token_key (s : string) : bool :=
  forallb textproto.validHeaderFieldByte (list_ascii_of_string s).

(** ** net/http.Header methods *)

Module http.

Definition CanonicalHeaderKey := textproto.CanonicalMIMEHeaderKey.

Definition Get (h : Header) (key : string) : string :=
  match h !! CanonicalHeaderKey key with
  | Some (v :: _) => v
  | _ => EmptyString
  end.

Definition Set_ (h : Header) (key value : string) : Header :=
  <[CanonicalHeaderKey key := [value]]> h.

Definition Add (h : Header) (key value : string) : Header :=
  let key := CanonicalHeaderKey key in
  <[key := (default [] (h !! key) ++ [value])%list]> h.

Definition Del (h : Header) (key : string) : Header :=
  delete (CanonicalHeaderKey key) h.

Definition StatusOK : Z := 200.

(** [*http.PushOptions]; [None] is the nil pointer. *)
Record PushOptions := { Method : string; PushHeader : Header }.

End http.

(** ** regexp: the header filter *)

(** A compiled [*regexp.Regexp] is represented by what [MatchString]
    answers; [None] is the nil pointer. *)
Definition Regexp := string → bool.

Definition MatchString (re : option Regexp) (s : string) : outcome bool :=
  match re with
  | Some m => Returned (m s)
  | None => Panicked "invalid memory address or nil pointer dereference"
  end.

Module regexp.

(** One literal of a [(?i)] pattern against the front of the text.
    The literal is a lower-case ASCII letter or a dash.  Go folds case
    by rune orbits, so next to both ASCII cases [s] accepts U+017F
    (bytes C5 BF) and [k] accepts U+212A (bytes E2 84 AA).  The result
    is the text left after the rune. *)
Definition fold_literal (p : ascii) (s : string) : option string :=
  match s with
  | EmptyString => None
  | String c rest =>
      if Ascii.eqb (textproto.to_lower c) p then Some rest
      else if Ascii.eqb p "s" && Ascii.eqb c "197" then
        match rest with
        | String d rest' => if Ascii.eqb d "191" then Some rest' else None
        | _ => None
        end
      else if Ascii.eqb p "k" && Ascii.eqb c "226" then
        match rest with
        | String d (String e rest') =>
            if Ascii.eqb d "132" && Ascii.eqb e "170" then Some rest' else None
        | _ => None
        end
      else None
  end.

(** [(?i)^lit]: the literal, case-folded, at the start of the text. *)
Fixpoint fold_prefix (lit s : string) : bool :=
  match lit with
  | EmptyString => true
  | String p lit' =>
      match fold_literal p s with
      | Some rest => fold_prefix lit' rest
      | None => false
      end
  end.

(** [(?i)^(l1|l2|...)]. *)
Definition fold_prefix_any (lits : list string) : Regexp :=
  fun s => existsb (fun lit => fold_prefix lit s) lits.

End regexp.

(** [defaultHeaderFilterReg], response.go lines 11-12. *)
Definition defaultHeaderFilterReg : Regexp :=
  regexp.fold_prefix_any
    ["accept"; "allow"; "retry-after"; "warning"; "vary";
     "access-control-allow-"; "x-ratelimit-"].

(** ** Package gear: declarations outside response.go *)

(** Modelled from the spec: the header-name constants [HeaderVary] and
    [HeaderContentLength] are declared in another file of the package;
    the spec names the headers Vary and Content-Length. *)
Definition HeaderVary : string := "Vary".
Definition HeaderContentLength : string := "Content-Length".

(** Modelled from the spec: the type [atomicBool] and its methods are
    declared in another file of the package.  The spec describes the
    flag as a boolean that only moves from false to true and [swapTrue]
    as one indivisible test-and-set that reports whether this call made
    the move. *)
Definition atomicBool := bool.
Definition isTrue (b : atomicBool) : bool := b.
Definition setTrue (b : atomicBool) : atomicBool := true.
Definition swapTrue (b : atomicBool) : bool * atomicBool := (negb b, true).

(** ** The response object *)

(** A hook is a Go closure [func()].  A closure may reach the response it
    is registered on, so hooks are named here and their bodies are given
    by the environment ([call] below). *)
Definition Hook := nat.

(** What the transport sees, in call order. *)
Inductive Event : Type :=
| EvWriteHeader (status : Z) (h : Header)   (* rw.WriteHeader(status) *)
| EvWrite (buf : list byte)                 (* rw.Write(buf) *)
| EvGo (hooks : list Hook).                 (* go runHooks(hooks) *)

(** Results of the optional transport interfaces. *)
Definition Conn := nat.
Definition ReadWriter := nat.
Definition Chan := nat.

(** The origin [http.ResponseWriter] with the optional interfaces it
    implements; [None] when a type assertion to the interface fails. *)
Record Transport := {
  as_Flusher : option unit;
  as_Hijacker : option (Conn * ReadWriter * error);
  as_CloseNotifier : option Chan;
  as_Pusher : option (string → option http.PushOptions → error)
}.

(** [type Response struct].  The writer [rw] is represented by its
    header map and by the log of the calls made on it. *)
Record Response := {
  status : Z;
  body : option (list byte);          (* [None] is the nil slice *)
  afterHooks : list Hook;
  endHooks : list Hook;
  ended : atomicBool;
  wroteHeader : atomicBool;
  w : Transport;
  header : Header;                    (* r.rw.Header() *)
  wire : list Event
}.

Definition set_status (v : Z) (r : Response) : Response :=
  {| status := v; body := body r; afterHooks := afterHooks r;
     endHooks := endHooks r; ended := ended r; wroteHeader := wroteHeader r;
     w := w r; header := header r; wire := wire r |}.
Definition set_body (v : option (list byte)) (r : Response) : Response :=
  {| status := status r; body := v; afterHooks := afterHooks r;
     endHooks := endHooks r; ended := ended r; wroteHeader := wroteHeader r;
     w := w r; header := header r; wire := wire r |}.
Definition set_ended (v : atomicBool) (r : Response) : Response :=
  {| status := status r; body := body r; afterHooks := afterHooks r;
     endHooks := endHooks r; ended := v; wroteHeader := wroteHeader r;
     w := w r; header := header r; wire := wire r |}.
Definition set_wroteHeader (v : atomicBool) (r : Response) : Response :=
  {| status := status r; body := body r; afterHooks := afterHooks r;
     endHooks := endHooks r; ended := ended r; wroteHeader := v;
     w := w r; header := header r; wire := wire r |}.
Definition set_header (v : Header) (r : Response) : Response :=
  {| status := status r; body := body r; afterHooks := afterHooks r;
     endHooks := endHooks r; ended := ended r; wroteHeader := wroteHeader r;
     w := w r; header := v; wire := wire r |}.
Definition emit (e : Event) (r : Response) : Response :=
  {| status := status r; body := body r; afterHooks := afterHooks r;
     endHooks := endHooks r; ended := ended r; wroteHeader := wroteHeader r;
     w := w r; header := header r; wire := (wire r ++ [e])%list |}.

(** What response.go takes from outside: the two status classifiers of
    package gear (declared in another file), the bodies of the hooks, and
    the answer of the transport to a raw write. *)
Class Externals := {
  IsStatusCode : Z → bool;
  isEmptyStatus : Z → bool;
  call : Hook → Response → Response;
  rw_Write : Response → list byte → Z * error
}.

(** ** Header accessors, response.go lines 27-87 *)

Definition Get (key : string) (r : Response) : string :=
  http.Get (header r) key.

Definition Set_ (key value : string) (r : Response) : Response :=
  set_header (http.Set_ (header r) key value) r.

Definition Del (key : string) (r : Response) : Response :=
  set_header (http.Del (header r) key) r.

Definition Vary (field : string) (r : Response) : Response :=
  if negb (String.eqb field EmptyString)
     && negb (String.eqb (Get HeaderVary r) "*") then
    if String.eqb field "*" then
      set_header (http.Set_ (header r) HeaderVary field) r
    else
      set_header (http.Add (header r) HeaderVary field) r
  else r.

Definition Status (r : Response) : Z := status r.
Definition Body (r : Response) : option (list byte) := body r.
Definition HeaderWrote (r : Response) : bool := isTrue (wroteHeader r).

(** The [for key := range header] loop of [ResetHeader] over the keys in
    the order [keys]; the first [MatchString] on a nil regexp panics. *)
Fixpoint ResetHeader_range (reg : option Regexp) (keys : list string)
    (h : Header) : outcome Header :=
  match keys with
  | [] => Returned h
  | key :: keys' =>
      m ←! MatchString reg key;
      ResetHeader_range reg keys' (if negb m then delete key h else h)
  end.

(** [ResetHeader(filterReg ...*regexp.Regexp)] run over an enumeration
    [keys] of the map; Go leaves the order of a map range unspecified. *)
Definition ResetHeader_in (keys : list string) (filterReg : list (option Regexp))
    (r : Response) : outcome Response :=
  let reg := match filterReg with
             | first :: _ => first
             | [] => Some defaultHeaderFilterReg
             end in
  h ←! ResetHeader_range reg keys (header r);
  Returned (set_header h r).

Definition ResetHeader (filterReg : list (option Regexp)) (r : Response)
    : outcome Response :=
  ResetHeader_in (map_to_list (header r)).*1 filterReg r.

Section Gate.
Context `{Externals}.

(** ** Hook chains, response.go lines 192-197 *)

(** [for i := len(hooks) - 1; i >= 0; i-- { hooks[i]() }], with [n]
    the number of hooks still to run, so that the next index is
    [n - 1]. *)
Fixpoint runHooks_from (n : nat) (hooks : list Hook) (r : Response)
    : Response :=
  match n with
  | O => r
  | S i =>
      runHooks_from i hooks
        (match hooks !! i with
         | Some h => call h r
         | None => r
         end)
  end.

Definition runHooks (hooks : list Hook) (r : Response) : Response :=
  runHooks_from (length hooks) hooks r.

(** ** The commit gate, response.go lines 105-143 *)

(** Line 110. *)
Definition commit_ended (r : Response) : Response :=
  set_ended (setTrue (ended r)) r.

(** Lines 113-115. *)
Definition commit_status (code : Z) (r : Response) : Response :=
  if 0 <? code then set_status code r else r.

(** Line 118. *)
Definition commit_hooks (r : Response) : Response :=
  runHooks (afterHooks r) r.

(** Lines 121-131. *)
Definition commit_normalize (r : Response) : Response :=
  if negb (IsStatusCode (status r)) then
    match body r with
    | Some _ => set_status http.StatusOK r
    | None => set_status 421 r
    end
  else if isEmptyStatus (status r) then set_body None r
  else r.

(** Lines 134-136. *)
Definition commit_content_length (r : Response) : Response :=
  match body r with
  | Some b => Set_ HeaderContentLength (Itoa (len b)) r
  | None => r
  end.

(** Line 137. *)
Definition commit_transport (r : Response) : Response :=
  emit (EvWriteHeader (status r) (header r)) r.

(** Lines 140-142.  The [go] statement goes on the wire; what the
    goroutine it starts does is [goroutine] below. *)
Definition commit_dispatch (r : Response) : Response :=
  if 0 <? len (endHooks r) then emit (EvGo (endHooks r)) r else r.

Definition WriteHeader (code : Z) (r : Response) : Response :=
  let '(swapped, flag) := swapTrue (wroteHeader r) in
  let r := set_wroteHeader flag r in
  if negb swapped then r
  else
    let r := commit_ended r in
    let r := commit_status code r in
    let r := commit_hooks r in
    let r := commit_normalize r in
    let r := commit_content_length r in
    let r := commit_transport r in
    commit_dispatch r.

(** ** The write path, response.go lines 90-99 *)

Definition Write (buf : list byte) (r : Response) : (Z * error) * Response :=
  let r :=
    if negb (isTrue (wroteHeader r)) then
      let r := if status r =? 0 then set_status 200 r else r in
      WriteHeader 0 r
    else r in
  (rw_Write r buf, emit (EvWrite buf) r).

(** Lines 182-190. *)
Definition respond (status : Z) (body_ : option (list byte)) (r : Response)
    : error * Response :=
  let r := set_body body_ r in
  let r := WriteHeader status r in
  match body r with
  | Some b => let '((_, err), r) := Write b r in (err, r)
  | None => (nil_error, r)
  end.

(** ** Two callers of the gate *)

(** Where a caller of [WriteHeader] stands.  The swap of line 106 is
    one step; the hook chain is taken as one step as well. *)
Inductive pc : Type :=
| AtSwap | AtEnded | AtStatus | AtHooks | AtNormalize
| AtContentLength | AtTransport | AtDispatch | AtReturn.

Definition thread_step (code : Z) (p : pc) (r : Response) : pc * Response :=
  match p with
  | AtSwap =>
      let '(swapped, flag) := swapTrue (wroteHeader r) in
      (if negb swapped then AtReturn else AtEnded, set_wroteHeader flag r)
  | AtEnded => (AtStatus, commit_ended r)
  | AtStatus => (AtHooks, commit_status code r)
  | AtHooks => (AtNormalize, commit_hooks r)
  | AtNormalize => (AtContentLength, commit_normalize r)
  | AtContentLength => (AtTransport, commit_content_length r)
  | AtTransport => (AtDispatch, commit_transport r)
  | AtDispatch => (AtReturn, commit_dispatch r)
  | AtReturn => (AtReturn, r)
  end.

(** Two goroutines, one in [WriteHeader(c1)] and one in
    [WriteHeader(c2)], on one response. *)
Record config := { shared : Response; pc1 : pc; pc2 : pc }.

Inductive step (c1 c2 : Z) : config → config → Prop :=
| step_first cfg :
    pc1 cfg ≠ AtReturn →
    step c1 c2 cfg
      {| shared := (thread_step c1 (pc1 cfg) (shared cfg)).2;
         pc1 := (thread_step c1 (pc1 cfg) (shared cfg)).1;
         pc2 := pc2 cfg |}
| step_second cfg :
    pc2 cfg ≠ AtReturn →
    step c1 c2 cfg
      {| shared := (thread_step c2 (pc2 cfg) (shared cfg)).2;
         pc1 := pc1 cfg;
         pc2 := (thread_step c2 (pc2 cfg) (shared cfg)).1 |}.

Definition both_enter (r : Response) : config :=
  {| shared := r; pc1 := AtSwap; pc2 := AtSwap |}.
Definition both_returned (r : Response) : config :=
  {| shared := r; pc1 := AtReturn; pc2 := AtReturn |}.

End Gate.

(** ** Optional transport interfaces, response.go lines 148-175 *)

Definition Flush (r : Response) : outcome unit :=
  match as_Flusher (w r) with
  | Some flushed => Returned flushed
  | None => Panicked "interface conversion: not http.Flusher"
  end.

Definition Hijack (r : Response) : outcome (Conn * ReadWriter * error) :=
  match as_Hijacker (w r) with
  | Some res => Returned res
  | None => Panicked "interface conversion: not http.Hijacker"
  end.

Definition CloseNotify (r : Response) : outcome Chan :=
  match as_CloseNotifier (w r) with
  | Some ch => Returned ch
  | None => Panicked "interface conversion: not http.CloseNotifier"
  end.

Definition Push (target : string) (opts : option http.PushOptions)
    (r : Response) : outcome error :=
  match as_Pusher (w r) with
  | Some pusher => Returned (pusher target opts)
  | None => Returned (Err_WithMsg "http.Pusher not implemented")
  end.

(** ** Measures on the wire *)

Definition is_commit (e : Event) : bool :=
  match e with EvWriteHeader _ _ => true | _ => false end.
Definition is_dispatch (e : Event) : bool :=
  match e with EvGo _ => true | _ => false end.

(** Number of [rw.WriteHeader] calls and of [go runHooks] statements. *)
Definition commits (l : list Event) : nat := length (filter is_commit l).
Definition dispatches (l : list Event) : nat := length (filter is_dispatch l).

(** What lines 140-142 put on the wire for the chain [hooks]. *)
Definition dispatch_of (hooks : list Hook) : list Event :=
  match hooks with [] => [] | _ => [EvGo hooks] end.

(** The hooks handed to [go runHooks], in the order of the [go]
    statements and, within one statement, of the chain. *)
Definition dispatched (l : list Event) : list Hook :=
  concat (omap (fun e => match e with EvGo hs => Some hs | _ => None end) l).

(** The goroutine an event starts.  [go runHooks(hooks)] starts one
    that, detached from the caller, runs [runHooks(hooks)] on the shared
    response as it finds it; the other events start none. *)
Definition goroutine `{Externals} (e : Event) (r : Response) : Response :=
  match e with
  | EvGo hooks => runHooks hooks r
  | _ => r
  end.

(** The statuses handed to [rw.WriteHeader], in order. *)
Definition committed_statuses (l : list Event) : list Z :=
  omap (fun e => match e with EvWriteHeader s _ => Some s | _ => None end) l.

(** A hook that, run on a committed response, leaves the flag set and
    reaches the transport only with raw writes: it makes no header commit
    and starts no dispatch of its own. *)
Definition respects_gate `{Externals} (h : Hook) : Prop :=
  ∀ r, wroteHeader r = true →
    wroteHeader (call h r) = true ∧
    ∃ bufs, wire (call h r) = (wire r ++ (EvWrite <$> bufs))%list.

(** The response on which the caller with status [code] works while it
    stands at [p], when it entered the gate on [r] and won the swap. *)
Definition at_pc `{Externals} (code : Z) (p : pc) (r : Response) : Response :=
  let r0 := set_wroteHeader true r in
  let r1 := commit_ended r0 in
  let r2 := commit_status code r1 in
  let r3 := commit_hooks r2 in
  let r4 := commit_normalize r3 in
  let r5 := commit_content_length r4 in
  let r6 := commit_transport r5 in
  match p with
  | AtSwap => r
  | AtEnded => r0
  | AtStatus => r1
  | AtHooks => r2
  | AtNormalize => r3
  | AtContentLength => r4
  | AtTransport => r5
  | AtDispatch => r6
  | AtReturn => commit_dispatch r6
  end.

(** Steps a caller at [p] still has to take. *)
Definition steps_left (p : pc) : nat :=
  match p with
  | AtSwap => 8 | AtEnded => 7 | AtStatus => 6 | AtHooks => 5
  | AtNormalize => 4 | AtContentLength => 3 | AtTransport => 2
  | AtDispatch => 1 | AtReturn => 0
  end.

(** ** A concrete environment *)

Module Model.

(** Modelled from the spec: [IsStatusCode] and [isEmptyStatus] are
    declared in another file of the package.  The spec speaks of the
    recognized HTTP status codes, taken here as the registered ones,
    and of the class without a body, 1xx, 204 and 304. *)
Definition IsStatusCode (s : Z) : bool :=
  bool_decide (s ∈ [100; 101; 102; 103;
                    200; 201; 202; 203; 204; 205; 206; 207; 208; 226;
                    300; 301; 302; 303; 304; 305; 307; 308;
                    400; 401; 402; 403; 404; 405; 406; 407; 408; 409;
                    410; 411; 412; 413; 414; 415; 416; 417; 418;
                    421; 422; 423; 424; 425; 426; 428; 429; 431; 451;
                    500; 501; 502; 503; 504; 505; 506; 507; 508; 510; 511]).

Definition isEmptyStatus (s : Z) : bool :=
  ((100 <=? s) && (s <? 200)) || (s =? 204) || (s =? 304).

(** Hook 0 does nothing, hook 1 turns the response into a 500, hook 2
    clears status and body, and hook [n + 3] adds its number [n] to
    the header X-Trace. *)
Definition call (h : Hook) (r : Response) : Response :=
  match h with
  | 0%nat => r
  | 1%nat => set_status 500 r
  | 2%nat => set_body None (set_status 0 r)
  | S (S (S n)) =>
      set_header (http.Add (header r) "X-Trace" (Itoa (Z.of_nat n))) r
  end.

(** A transport that takes every byte. *)
Definition rw_Write (r : Response) (buf : list byte) : Z * error :=
  (len buf, nil_error).

Definition env : Externals :=
  Build_Externals IsStatusCode isEmptyStatus call rw_Write.

(** A transport without any optional interface, and one with all. *)
Definition plain : Transport :=
  {| as_Flusher := None; as_Hijacker := None;
     as_CloseNotifier := None; as_Pusher := None |}.

Definition http2 : Transport :=
  {| as_Flusher := Some tt;
     as_Hijacker := Some (1%nat, 1%nat, nil_error);
     as_CloseNotifier := Some 1%nat;
     as_Pusher := Some (fun target _ =>
       if String.eqb target EmptyString then transport_error "empty target"
       else nil_error) |}.

(** A response as it is at the start of a request. *)
Definition fresh : Response :=
  {| status := 0; body := None; afterHooks := []; endHooks := [];
     ended := false; wroteHeader := false; w := plain;
     header := ∅; wire := [] |}.

(** The same on a transport with every optional interface. *)
Definition fresh_http2 : Response :=
  {| status := 0; body := None; afterHooks := []; endHooks := [];
     ended := false; wroteHeader := false; w := http2;
     header := ∅; wire := [] |}.

Definition with_hooks (after end_ : list Hook) (r : Response) : Response :=
  {| status := status r; body := body r; afterHooks := after;
     endHooks := end_; ended := ended r; wroteHeader := wroteHeader r;
     w := w r; header := header r; wire := wire r |}.

Definition hello : list byte := [x68; x65; x6c; x6c; x6f]%byte.

End Model.

(** The same environment with hooks that all write the bytes of
    [Model.hello] to the transport. *)
Definition writing_hooks : Externals :=
  Build_Externals Model.IsStatusCode Model.isEmptyStatus
    (fun _ r => emit (EvWrite Model.hello) r) Model.rw_Write.

(** * Properties *)

(** ** Records and setters *)

Lemma set_wroteHeader_same r : set_wroteHeader (wroteHeader r) r = r.
Proof. by destruct r. Qed.

(** ** Header accessors *)

Lemma canonical_Vary : http.CanonicalHeaderKey HeaderVary = "Vary".
Proof. reflexivity. Qed.

Lemma canonical_ContentLength :
  http.CanonicalHeaderKey HeaderContentLength = "Content-Length".
Proof. reflexivity. Qed.

Lemma Get_Vary_values r :
  Get HeaderVary r = match default [] (header r !! "Vary") with
                     | v :: _ => v
                     | [] => EmptyString
                     end.
Proof.
  unfold Get, http.Get. rewrite canonical_Vary.
  by destruct (header r !! "Vary") as [[|v vs]|].
Qed.

Lemma Vary_wildcard_present field r :
  Get HeaderVary r = "*" → Vary field r = r.
Proof.
  intros Hstar. unfold Vary. rewrite Hstar. simpl.
  by rewrite andb_false_r.
Qed.

Lemma Vary_empty_field r : Vary EmptyString r = r.
Proof. reflexivity. Qed.

Lemma Vary_set_wildcard r :
  Get HeaderVary r ≠ "*" →
  Vary "*" r = set_header (<["Vary" := ["*"]]> (header r)) r.
Proof.
  intros Hne. unfold Vary.
  destruct (String.eqb_spec (Get HeaderVary r) "*") as [|_]; [done|].
  reflexivity.
Qed.

Lemma Vary_append field r :
  field ≠ EmptyString → field ≠ "*" → Get HeaderVary r ≠ "*" →
  Vary field r =
    set_header
      (<["Vary" := (default [] (header r !! "Vary") ++ [field])%list]> (header r))
      r.
Proof.
  intros Hne Hns Hg. unfold Vary.
  destruct (String.eqb_spec field EmptyString) as [|_]; [done|].
  destruct (String.eqb_spec (Get HeaderVary r) "*") as [|_]; [done|].
  destruct (String.eqb_spec field "*") as [|_]; [done|].
  reflexivity.
Qed.

(** C8: [Vary(field)] changes nothing when [field] is empty or the Vary
    header already reads "*"; [Vary("*")] otherwise replaces all Vary
    values by "*"; any other field is appended after the values already
    there.  After [Vary("*")], [Vary(x)] leaves the header reading "*",
    and [Vary(a)] then [Vary(b)] leaves both values in the header. *)
Theorem Vary_merge (field : string) (r : Response) :
  (field = EmptyString ∨ Get HeaderVary r = "*" → Vary field r = r) ∧
  (field = "*" → Get HeaderVary r ≠ "*" →
     Vary field r = set_header (<["Vary" := ["*"]]> (header r)) r) ∧
  (field ≠ EmptyString → field ≠ "*" → Get HeaderVary r ≠ "*" →
     Vary field r =
       set_header
         (<["Vary" := (default [] (header r !! "Vary") ++ [field])%list]>
            (header r)) r) ∧
  (∀ x, Get HeaderVary (Vary x (Vary "*" r)) = "*" ∧
        (Get HeaderVary r ≠ "*" →
           header (Vary x (Vary "*" r)) !! "Vary" = Some ["*"])) ∧
  (∀ a b, a ≠ EmptyString → a ≠ "*" → b ≠ EmptyString → b ≠ "*" →
     Get HeaderVary r ≠ "*" →
     header (Vary b (Vary a r)) !! "Vary" =
       Some (default [] (header r !! "Vary") ++ [a; b])%list).
Proof.
  split; [|split; [|split; [|split]]].
  - intros [->|Hstar]; [apply Vary_empty_field|by apply Vary_wildcard_present].
  - intros ->. apply Vary_set_wildcard.
  - apply Vary_append.
  - intros x.
    destruct (decide (Get HeaderVary r = "*")) as [Hstar|Hne].
    + rewrite !Vary_wildcard_present by (by rewrite ?Vary_wildcard_present).
      done.
    + assert (Get HeaderVary (Vary "*" r) = "*") as Hset.
      { rewrite Vary_set_wildcard by done.
        rewrite Get_Vary_values. simpl. by rewrite lookup_insert_eq. }
      rewrite (Vary_wildcard_present x) by done.
      split; [done|]. intros _.
      rewrite Vary_set_wildcard by done. simpl. by rewrite lookup_insert_eq.
  - intros a b Ha Has Hb Hbs Hne.
    assert (Get HeaderVary (Vary a r) ≠ "*") as Hnext.
    { rewrite Vary_append by done. rewrite Get_Vary_values. simpl.
      rewrite lookup_insert_eq. simpl.
      rewrite Get_Vary_values in Hne.
      by destruct (default [] (header r !! "Vary")). }
    rewrite (Vary_append b) by done. simpl. rewrite lookup_insert_eq.
    rewrite Vary_append by done. simpl. rewrite lookup_insert_eq. simpl.
    by rewrite <- app_assoc.
Qed.

Lemma Vary_merge_witness :
  Vary EmptyString Model.fresh = Model.fresh ∧
  header (Vary "*" Model.fresh) !! "Vary" = Some ["*"] ∧
  header (Vary "Accept-Encoding" Model.fresh) !! "Vary"
    = Some ["Accept-Encoding"] ∧
  header (Vary "X" (Vary "*" Model.fresh)) !! "Vary" = Some ["*"] ∧
  header (Vary "B" (Vary "A" Model.fresh)) !! "Vary" = Some ["A"; "B"].
Proof.
  split; [|split; [|split; [|split]]].
  - apply (Vary_merge EmptyString Model.fresh). by left.
  - destruct (Vary_merge "*" Model.fresh) as (_ & H & _).
    rewrite H; [reflexivity|reflexivity|vm_compute; discriminate].
  - destruct (Vary_merge "Accept-Encoding" Model.fresh) as (_ & _ & H & _).
    rewrite H; [reflexivity|discriminate|discriminate|vm_compute; discriminate].
  - destruct (Vary_merge "X" Model.fresh) as (_ & _ & _ & H & _).
    apply (H "X"). vm_compute; discriminate.
  - destruct (Vary_merge "A" Model.fresh) as (_ & _ & _ & _ & H).
    apply (H "A" "B"); (discriminate || (vm_compute; discriminate)).
Defined.

(** ** ResetHeader *)

(** The range loop with a regexp that is there: it returns, and a key is
    gone exactly when the loop came across it and the regexp rejects it. *)
Lemma ResetHeader_range_lookup (f : Regexp) keys (h : Header) :
  ∃ h', ResetHeader_range (Some f) keys h = Returned h' ∧
    ∀ key, h' !! key =
      if bool_decide (key ∈ keys) && negb (f key) then None else h !! key.
Proof.
  revert h. induction keys as [|k keys IH]; intros h;
    cbn [ResetHeader_range MatchString obind].
  - exists h. split; [done|]. intros key.
    rewrite bool_decide_eq_false_2; [done|]. apply not_elem_of_nil.
  - destruct (IH (if negb (f k) then delete k h else h)) as (h' & Hrun & Hlook).
    exists h'. split; [done|]. intros key. rewrite Hlook.
    destruct (decide (key = k)) as [->|Hne].
    + rewrite (bool_decide_eq_true_2 (k ∈ k :: keys)) by apply list_elem_of_here.
      destruct (f k); simpl.
      * by rewrite andb_false_r.
      * rewrite andb_true_r, lookup_delete_eq. by destruct (bool_decide _).
    + assert (bool_decide (key ∈ k :: keys) = bool_decide (key ∈ keys)) as ->.
      { apply bool_decide_ext. rewrite elem_of_cons.
        split; [by intros [?|?]|by right]. }
      destruct (bool_decide (key ∈ keys) && negb (f key)); [done|].
      destruct (negb (f k)); [by rewrite lookup_delete_ne|done].
Qed.

(** Over any enumeration that holds every key of the map, the loop keeps
    the keys the regexp matches and deletes the others. *)
Lemma ResetHeader_in_keeps (f : Regexp) keys rest (r : Response) :
  (∀ key, is_Some (header r !! key) → key ∈ keys) →
  ∃ h', ResetHeader_in keys (Some f :: rest) r = Returned (set_header h' r) ∧
    ∀ key, h' !! key = if f key then header r !! key else None.
Proof.
  intros Hall. unfold ResetHeader_in.
  destruct (ResetHeader_range_lookup f keys (header r)) as (h' & -> & Hlook).
  exists h'. split; [done|]. intros key. rewrite Hlook.
  destruct (f key); simpl; [by rewrite andb_false_r|].
  rewrite andb_true_r. case_bool_decide as Hin; [done|].
  destruct (header r !! key) eqn:Hk; [|done].
  exfalso. apply Hin, Hall. by rewrite Hk.
Qed.

Lemma map_keys_complete (h : Header) key :
  is_Some (h !! key) → key ∈ (map_to_list h).*1.
Proof.
  intros [v Hv]. apply list_elem_of_fmap. exists (key, v).
  split; [done|]. by apply elem_of_map_to_list.
Qed.

Lemma ResetHeader_keeps (f : Regexp) rest (r : Response) :
  ∃ h', ResetHeader (Some f :: rest) r = Returned (set_header h' r) ∧
    ∀ key, h' !! key = if f key then header r !! key else None.
Proof. apply ResetHeader_in_keeps, map_keys_complete. Qed.

Lemma ResetHeader_no_filter keys (r : Response) :
  ResetHeader_in keys [] r = ResetHeader_in keys [Some defaultHeaderFilterReg] r.
Proof. reflexivity. Qed.

(** C9: without an argument [ResetHeader] returns a response whose
    header map keeps, with its values, every key the default filter
    matches and has lost every other key, whatever the order in which the
    map is ranged over; nothing else of the response changes.  Of
    Accept, X-Custom and Vary it keeps Accept and Vary. *)
Theorem ResetHeader_default_selectivity (r : Response) :
  ∃ h',
    ResetHeader [] r = Returned (set_header h' r) ∧
    (∀ key, h' !! key =
       if defaultHeaderFilterReg key then header r !! key else None) ∧
    (∀ keys, keys ≡ₚ (map_to_list (header r)).*1 →
       ResetHeader_in keys [] r = Returned (set_header h' r)) ∧
    (∀ a x v,
       header r = {[ "Accept" := a; "X-Custom" := x; "Vary" := v ]} →
       h' = {[ "Accept" := a; "Vary" := v ]}).
Proof.
  destruct (ResetHeader_keeps defaultHeaderFilterReg [] r) as (h' & Hrun & Hlook).
  exists h'. split; [exact Hrun|]. split; [exact Hlook|]. split.
  - intros keys Hperm. rewrite ResetHeader_no_filter.
    destruct (ResetHeader_in_keeps defaultHeaderFilterReg keys [] r)
      as (h'' & -> & Hlook'').
    { intros key Hk. rewrite Hperm. by apply map_keys_complete. }
    f_equal. f_equal. apply map_eq. intros key. by rewrite Hlook, Hlook''.
  - intros a x v Hh. apply map_eq. intros key. rewrite Hlook, Hh.
    destruct (decide (key = "Accept")) as [->|?]; [done|].
    destruct (decide (key = "Vary")) as [->|?]; [done|].
    destruct (decide (key = "X-Custom")) as [->|?]; [done|].
    rewrite !lookup_insert_ne, !lookup_singleton_ne by done.
    by destruct (defaultHeaderFilterReg key).
Qed.

Lemma ResetHeader_default_selectivity_witness :
  ResetHeader []
    (set_header {[ "Accept" := ["text/html"]; "X-Custom" := ["1"];
                   "Vary" := ["Accept"] ]} Model.fresh)
  = Returned
      (set_header {[ "Accept" := ["text/html"]; "Vary" := ["Accept"] ]}
         Model.fresh).
Proof.
  destruct (ResetHeader_default_selectivity
              (set_header {[ "Accept" := ["text/html"]; "X-Custom" := ["1"];
                             "Vary" := ["Accept"] ]} Model.fresh))
    as (h' & Hrun & _ & _ & Hthree).
  rewrite Hrun. f_equal.
  rewrite (Hthree ["text/html"] ["1"] ["Accept"]); reflexivity.
Defined.

(** C10: when [ResetHeader] is given two or more regexps, the result is
    that of the call with the first one alone; with a first regexp that
    is not nil the call returns and the kept keys are those the first
    regexp matches, whatever the others are. *)
Theorem ResetHeader_uses_first_filter
    (first second : option Regexp) (rest : list (option Regexp)) (r : Response) :
  ResetHeader (first :: second :: rest) r = ResetHeader [first] r ∧
  (∀ keys, ResetHeader_in keys (first :: second :: rest) r
           = ResetHeader_in keys [first] r) ∧
  (∀ f, first = Some f →
     ∃ h', ResetHeader (first :: second :: rest) r = Returned (set_header h' r) ∧
       ∀ key, h' !! key = if f key then header r !! key else None).
Proof.
  split; [reflexivity|]. split; [reflexivity|].
  intros f ->. apply ResetHeader_keeps.
Qed.

Lemma ResetHeader_uses_first_filter_witness :
  ResetHeader [Some (fun key => String.eqb key "X-Custom"); None;
               Some defaultHeaderFilterReg]
    (set_header {[ "Accept" := ["text/html"]; "X-Custom" := ["1"] ]} Model.fresh)
  = ResetHeader [Some (fun key => String.eqb key "X-Custom")]
    (set_header {[ "Accept" := ["text/html"]; "X-Custom" := ["1"] ]} Model.fresh).
Proof.
  apply (ResetHeader_uses_first_filter
           (Some (fun key => String.eqb key "X-Custom")) None
           [Some defaultHeaderFilterReg]).
Defined.

(** ** Optional transport interfaces *)

(** C7: [Push] always returns: the transport's own answer when the
    transport implements [http.Pusher], and otherwise the error
    [Err.WithMsg("http.Pusher not implemented")].  [Flush], [Hijack] and
    [CloseNotify] assert the interface without a check and panic on a
    transport that lacks it. *)
Theorem Push_guarded_others_panic
    (target : string) (opts : option http.PushOptions) (r : Response) :
  (∃ e, Push target opts r = Returned e) ∧
  (as_Pusher (w r) = None →
     Push target opts r = Returned (Err_WithMsg "http.Pusher not implemented")) ∧
  (∀ pusher, as_Pusher (w r) = Some pusher →
     Push target opts r = Returned (pusher target opts)) ∧
  (as_Flusher (w r) = None → ∃ msg, Flush r = Panicked msg) ∧
  (as_Hijacker (w r) = None → ∃ msg, Hijack r = Panicked msg) ∧
  (as_CloseNotifier (w r) = None → ∃ msg, CloseNotify r = Panicked msg).
Proof.
  unfold Push, Flush, Hijack, CloseNotify.
  repeat split.
  - destruct (as_Pusher (w r)); eauto.
  - by intros ->.
  - by intros pusher ->.
  - intros ->. eauto.
  - intros ->. eauto.
  - intros ->. eauto.
Qed.

Lemma Push_guarded_others_panic_witness :
  Push "/app.js" None Model.fresh
    = Returned (Err_WithMsg "http.Pusher not implemented") ∧
  Push "/app.js" None Model.fresh_http2 = Returned nil_error ∧
  Push EmptyString None Model.fresh_http2
    = Returned (transport_error "empty target") ∧
  (∃ msg, Flush Model.fresh = Panicked msg) ∧
  (∃ msg, Hijack Model.fresh = Panicked msg) ∧
  (∃ msg, CloseNotify Model.fresh = Panicked msg).
Proof.
  destruct (Push_guarded_others_panic "/app.js" None Model.fresh)
    as (_ & Hpush & _ & Hflush & Hhijack & Hclose).
  destruct (Push_guarded_others_panic "/app.js" None Model.fresh_http2)
    as (_ & _ & Hsome & _).
  destruct (Push_guarded_others_panic EmptyString None Model.fresh_http2)
    as (_ & _ & Hempty & _).
  split; [apply Hpush; reflexivity|].
  split; [apply (Hsome _ eq_refl)|].
  split; [apply (Hempty _ eq_refl)|].
  split; [apply Hflush; reflexivity|].
  split; [apply Hhijack; reflexivity|apply Hclose; reflexivity].
Defined.

Section GateProperties.
Context `{Externals}.

(** ** Hook chains *)

Lemma runHooks_from_foldl n hooks r :
  (n ≤ length hooks)%nat →
  runHooks_from n hooks r
    = foldl (fun r h => call h r) r (reverse (take n hooks)).
Proof.
  revert r. induction n as [|i IH]; intros r Hn; cbn [runHooks_from].
  - reflexivity.
  - destruct (lookup_lt_is_Some_2 hooks i) as [h Hh]; [lia|].
    rewrite Hh, IH by lia.
    rewrite (take_S_r _ _ _ Hh), reverse_snoc. reflexivity.
Qed.

Lemma runHooks_foldl hooks r :
  runHooks hooks r = foldl (fun r h => call h r) r (reverse hooks).
Proof.
  unfold runHooks. rewrite runHooks_from_foldl by done.
  by rewrite firstn_all.
Qed.

(** What every hook of a chain preserves, the chain preserves. *)
Lemma runHooks_preserves (P : Response → Prop) hooks r :
  (∀ h, h ∈ hooks → ∀ r', P r' → P (call h r')) →
  P r → P (runHooks hooks r).
Proof.
  rewrite runHooks_foldl. intros Hstep.
  assert (∀ h, h ∈ reverse hooks → ∀ r', P r' → P (call h r')) as Hrev.
  { intros h Hh. apply Hstep. by apply elem_of_reverse. }
  clear Hstep. revert r.
  induction (reverse hooks) as [|h l IH]; intros r Hr; simpl; [done|].
  apply IH.
  - intros h' Hh'. apply Hrev. by right.
  - apply Hrev; [by left|done].
Qed.

Lemma runHooks_respects_gate hooks r :
  Forall respects_gate hooks →
  wroteHeader r = true →
  wroteHeader (runHooks hooks r) = true ∧
  ∃ bufs, wire (runHooks hooks r) = (wire r ++ (EvWrite <$> bufs))%list.
Proof.
  intros Hall Hflag.
  apply (runHooks_preserves
           (fun r' => wroteHeader r' = true ∧
              ∃ bufs, wire r' = (wire r ++ (EvWrite <$> bufs))%list)).
  - intros h Hh r' [Hf [bufs Hw]].
    rewrite Forall_forall in Hall.
    destruct (Hall h Hh r' Hf) as [Hf' [bufs' Hw']].
    split; [done|]. exists (bufs ++ bufs')%list.
    by rewrite Hw', Hw, fmap_app, app_assoc.
  - split; [done|]. exists []. by rewrite app_nil_r.
Qed.

(** ** The gate, phase by phase *)

Lemma WriteHeader_committed code r :
  wroteHeader r = true → WriteHeader code r = r.
Proof.
  intros Hflag. unfold WriteHeader, swapTrue. rewrite Hflag. simpl.
  rewrite <- Hflag. apply set_wroteHeader_same.
Qed.

Lemma WriteHeader_first code r :
  wroteHeader r = false → WriteHeader code r = at_pc code AtReturn r.
Proof. intros Hflag. unfold WriteHeader, swapTrue. by rewrite Hflag. Qed.

Lemma nonempty_len {A} (l : list A) :
  (0 <? len l) = match l with [] => false | _ => true end.
Proof. by destruct l. Qed.

(** Lines 121-131 as a table on status and body. *)
Lemma commit_normalize_fields r :
  commit_normalize r
    = set_body
        (if negb (IsStatusCode (status r)) then body r
         else if isEmptyStatus (status r) then None else body r)
        (set_status
           (if negb (IsStatusCode (status r)) then
              match body r with Some _ => 200 | None => 421 end
            else status r) r).
Proof.
  unfold commit_normalize.
  destruct (IsStatusCode (status r)); simpl.
  - destruct (isEmptyStatus (status r)); by destruct r.
  - destruct (body r) eqn:Hb; destruct r; simpl in *; by subst.
Qed.

(** Lines 133-143 after normalization: what reaches the transport. *)
Lemma commit_tail r :
  let r' := commit_dispatch (commit_transport (commit_content_length r)) in
  status r' = status r ∧ body r' = body r ∧
  wroteHeader r' = wroteHeader r ∧ endHooks r' = endHooks r ∧
  header r' = header (commit_content_length r) ∧
  wire r' =
    (wire r ++ EvWriteHeader (status r) (header r') ::
       dispatch_of (endHooks r))%list.
Proof.
  unfold commit_dispatch, commit_transport, commit_content_length.
  rewrite nonempty_len.
  destruct (body r) eqn:Hb; simpl; rewrite ?Hb;
    destruct (endHooks r) eqn:He; simpl; rewrite ?Hb, ?He;
    repeat split; by rewrite <- ?app_assoc.
Qed.

Lemma commit_normalize_keeps r :
  wroteHeader (commit_normalize r) = wroteHeader r ∧
  endHooks (commit_normalize r) = endHooks r ∧
  header (commit_normalize r) = header r ∧
  wire (commit_normalize r) = wire r.
Proof. by rewrite commit_normalize_fields. Qed.

Lemma commit_status_keeps code r :
  wroteHeader (commit_status code (commit_ended r)) = wroteHeader r ∧
  afterHooks (commit_status code (commit_ended r)) = afterHooks r ∧
  wire (commit_status code (commit_ended r)) = wire r.
Proof. unfold commit_status, commit_ended. by destruct (0 <? code). Qed.

(** After the before-commit chain the flag is still set and the wire
    has grown by raw writes only. *)
Lemma after_hooks_committed code r :
  Forall respects_gate (afterHooks r) →
  wroteHeader (at_pc code AtNormalize r) = true ∧
  ∃ bufs, wire (at_pc code AtNormalize r)
          = (wire r ++ (EvWrite <$> bufs))%list.
Proof.
  intros Hall. unfold at_pc, commit_hooks.
  destruct (commit_status_keeps code (set_wroteHeader true r))
    as (Hf & Hhooks & Hwire).
  rewrite Hhooks. simpl.
  destruct (runHooks_respects_gate (afterHooks r)
              (commit_status code (commit_ended (set_wroteHeader true r))))
    as [Hflag [bufs Hw]]; [done|by rewrite Hf|].
  split; [done|]. exists bufs. by rewrite Hw, Hwire.
Qed.

Lemma measures_app l1 l2 :
  commits (l1 ++ l2) = (commits l1 + commits l2)%nat ∧
  dispatches (l1 ++ l2) = (dispatches l1 + dispatches l2)%nat ∧
  committed_statuses (l1 ++ l2)
    = (committed_statuses l1 ++ committed_statuses l2)%list.
Proof.
  unfold commits, dispatches, committed_statuses.
  by rewrite !filter_app, !length_app, omap_app.
Qed.

Lemma measures_commit st hdr (hooks : list Hook) :
  let tail := EvWriteHeader st hdr :: dispatch_of hooks in
  commits tail = 1%nat ∧
  dispatches tail = match hooks with [] => 0 | _ => 1 end%nat ∧
  committed_statuses tail = [st].
Proof. by destruct hooks. Qed.

Lemma commits_writes l bufs :
  commits (l ++ (EvWrite <$> bufs)) = commits l ∧
  dispatches (l ++ (EvWrite <$> bufs)) = dispatches l ∧
  committed_statuses (l ++ (EvWrite <$> bufs)) = committed_statuses l.
Proof.
  unfold commits, dispatches, committed_statuses.
  rewrite !filter_app, !length_app, omap_app.
  induction bufs as [|b bufs (IH1 & IH2 & IH3)]; simpl.
  - rewrite app_nil_r. repeat split; lia.
  - done.
Qed.

(** The shape of a commit that goes through: the response after the
    before-commit chain, normalized, with one header commit and the
    dispatch on the wire. *)
Lemma WriteHeader_shape code r :
  wroteHeader r = false →
  let hooked := at_pc code AtNormalize r in
  let r' := WriteHeader code r in
  status r' = status (commit_normalize hooked) ∧
  body r' = body (commit_normalize hooked) ∧
  wroteHeader r' = wroteHeader hooked ∧
  endHooks r' = endHooks hooked ∧
  header r' = header (commit_content_length (commit_normalize hooked)) ∧
  wire r' =
    (wire hooked ++ EvWriteHeader (status r') (header r') ::
       dispatch_of (endHooks hooked))%list.
Proof.
  intros Hflag hooked r'. subst r'. rewrite WriteHeader_first by done.
  change (at_pc code AtReturn r) with
    (commit_dispatch (commit_transport
       (commit_content_length (commit_normalize hooked)))).
  destruct (commit_tail (commit_normalize hooked))
    as (Hs & Hb & Hf & He & Hh & Hw).
  destruct (commit_normalize_keeps hooked) as (Hf' & He' & _ & Hw').
  rewrite Hs, Hb, Hf, He, Hw, Hh, Hf', He', Hw'.
  by repeat split.
Qed.

Lemma WriteHeader_commits_once code r :
  wroteHeader r = false →
  Forall respects_gate (afterHooks r) →
  let r' := WriteHeader code r in
  wroteHeader r' = true ∧
  commits (wire r') = S (commits (wire r)) ∧
  dispatches (wire r') =
    (dispatches (wire r) + match endHooks r' with [] => 0 | _ => 1 end)%nat ∧
  committed_statuses (wire r') =
    (committed_statuses (wire r) ++ [status r'])%list.
Proof.
  intros Hflag Hall r'. subst r'.
  destruct (WriteHeader_shape code r Hflag) as (_ & _ & Hf & He & _ & Hw).
  destruct (after_hooks_committed code r Hall) as (Hset & bufs & Hwire).
  destruct (commits_writes (wire r) bufs) as (Hc & Hd & Hst).
  rewrite Hf, He, Hw, Hwire.
  split; [done|].
  match goal with
  | |- context [(?l1 ++ ?l2)%list] =>
      destruct (measures_app l1 l2) as (-> & -> & ->)
  end.
  rewrite Hc, Hd, Hst.
  match goal with
  | |- context [EvWriteHeader ?st ?hdr :: _] =>
      destruct (measures_commit st hdr (endHooks (at_pc code AtNormalize r)))
        as (-> & -> & ->)
  end.
  repeat split; lia.
Qed.

(** Without before-commit hooks the status that reaches normalization
    is the explicit one, or the one already on the response when the
    caller gave none. *)
Lemma entered_status_plain c r :
  afterHooks r = [] →
  status (at_pc c AtNormalize r) = (if 0 <? c then c else status r) ∧
  endHooks (at_pc c AtNormalize r) = endHooks r ∧
  wire (at_pc c AtNormalize r) = wire r.
Proof.
  intros Hnone. unfold at_pc, commit_hooks.
  destruct (commit_status_keeps c (set_wroteHeader true r)) as (_ & -> & _).
  cbn [afterHooks set_wroteHeader]. rewrite Hnone.
  unfold commit_status. by destruct (0 <? c).
Qed.

Lemma WriteHeader_status_plain c r :
  wroteHeader r = false → afterHooks r = [] →
  0 < c → IsStatusCode c = true →
  status (WriteHeader c r) = c.
Proof.
  intros Hflag Hnone Hpos Hok.
  destruct (WriteHeader_shape c r Hflag) as (-> & _).
  destruct (entered_status_plain c r Hnone) as (Hst & _).
  rewrite (proj2 (Z.ltb_lt 0 c) Hpos) in Hst.
  rewrite commit_normalize_fields. cbn [status set_body set_status].
  by rewrite Hst, Hok.
Qed.

(** C3: a commit that goes through leaves the status and the body that
    normalization makes of the status and body found after the
    before-commit hooks: an unrecognized status becomes 200 with a body
    and 421 without, a recognized body-less status drops the body, and
    anything else stays.  With 0 and 999 unrecognized, 204 recognized
    and body-less, and 200 recognized and not body-less, this gives the
    five rows of the table. *)
Theorem WriteHeader_normalizes (code : Z) (r : Response) :
  IsStatusCode 0 = false → IsStatusCode 999 = false →
  IsStatusCode 204 = true → isEmptyStatus 204 = true →
  IsStatusCode 200 = true → isEmptyStatus 200 = false →
  wroteHeader r = false →
  let hooked := at_pc code AtNormalize r in
  let r' := WriteHeader code r in
  status r' =
    (if negb (IsStatusCode (status hooked)) then
       match body hooked with Some _ => 200 | None => 421 end
     else status hooked) ∧
  body r' =
    (if negb (IsStatusCode (status hooked)) then body hooked
     else if isEmptyStatus (status hooked) then None else body hooked) ∧
  (status hooked = 0 → body hooked = None →
     status r' = 421 ∧ body r' = None) ∧
  (∀ b, status hooked = 0 → body hooked = Some b →
     status r' = 200 ∧ body r' = Some b) ∧
  (∀ b, status hooked = 999 → body hooked = Some b →
     status r' = 200 ∧ body r' = Some b) ∧
  (∀ b, status hooked = 204 → body hooked = Some b →
     status r' = 204 ∧ body r' = None) ∧
  (∀ b, status hooked = 200 → body hooked = Some b →
     status r' = 200 ∧ body r' = Some b).
Proof.
  intros H0 H999 H204 E204 H200 E200 Hflag hooked r'.
  destruct (WriteHeader_shape code r Hflag) as (Hs & Hb & _).
  fold hooked in Hs, Hb. fold r' in Hs, Hb.
  rewrite commit_normalize_fields in Hs, Hb. simpl in Hs, Hb.
  rewrite Hs, Hb. split; [done|]. split; [done|].
  split; [|split; [|split; [|split]]].
  - intros -> ->. by rewrite H0.
  - intros b -> ->. by rewrite H0.
  - intros b -> ->. by rewrite H999.
  - intros b -> ->. by rewrite H204, E204.
  - intros b -> ->. by rewrite H200, E200.
Qed.

Lemma Atoi_Itoa n : Atoi (Itoa n) = Some n.
Proof.
  unfold Atoi, Itoa. rewrite NilZero.isi.
  - simpl. by rewrite DecimalZ.of_to.
  - destruct n; simpl; [done| |done].
    intros [=Hnil]. by apply Unsigned.to_uint_nonnil in Hnil.
  - destruct n; simpl; [done|done|].
    intros [=Hnil]. by apply Unsigned.to_uint_nonnil in Hnil.
Qed.

(** C6: in a commit that goes through, the header map handed to the
    transport holds, when the normalized body is not nil, the single
    Content-Length value that is the decimal numeral of the body's
    length, its other keys being as the hooks left them; when the
    normalized body is nil the map is as the hooks left it. *)
Theorem WriteHeader_content_length (code : Z) (r : Response) :
  wroteHeader r = false →
  let hooked := at_pc code AtNormalize r in
  let r' := WriteHeader code r in
  ∃ hdr,
    wire r' =
      (wire hooked ++ EvWriteHeader (status r') hdr ::
         dispatch_of (endHooks hooked))%list ∧
    match body r' with
    | Some b =>
        hdr !! "Content-Length" = Some [Itoa (len b)] ∧
        Atoi (Itoa (len b)) = Some (Z.of_nat (length b)) ∧
        ∀ key, key ≠ "Content-Length" → hdr !! key = header hooked !! key
    | None => hdr = header hooked
    end.
Proof.
  intros Hflag hooked r'.
  destruct (WriteHeader_shape code r Hflag) as (_ & Hb & _ & _ & Hh & Hw).
  fold hooked in Hb, Hh, Hw. fold r' in Hb, Hh, Hw.
  exists (header r'). split; [exact Hw|].
  destruct (commit_normalize_keeps hooked) as (_ & _ & Hkeep & _).
  rewrite Hh, Hb. unfold commit_content_length.
  destruct (body (commit_normalize hooked)) as [b|]; [|done].
  unfold Set_, http.Set_. cbn [header set_header].
  rewrite canonical_ContentLength, Hkeep.
  split; [by rewrite lookup_insert_eq|]. split; [apply Atoi_Itoa|].
  intros key Hne. by rewrite lookup_insert_ne.
Qed.

(** C4: [runHooks] calls the hooks of a chain from the last registered
    to the first, so that for a chain A, B, C it is C, then B, then A.
    A commit that goes through runs the before-commit chain this way
    on the response as it stands after the status is set; only then
    comes the header commit on the wire, and after it the statement
    [go runHooks(r.endHooks)] for a chain that is not empty.  The
    goroutine this statement starts runs the after-commit chain in the
    same way, from the last registered to the first, on the response as
    it finds it. *)
Theorem hooks_run_LIFO (code : Z) (r : Response) :
  wroteHeader r = false →
  (∀ hooks r0,
     runHooks hooks r0 = foldl (fun r1 h => call h r1) r0 (reverse hooks)) ∧
  (∀ A B C r0, runHooks [A; B; C] r0 = call A (call B (call C r0))) ∧
  let entered := commit_status code (commit_ended (set_wroteHeader true r)) in
  let hooked := runHooks (afterHooks r) entered in
  let r' := WriteHeader code r in
  (∀ A B C, afterHooks r = [A; B; C] →
     hooked = call A (call B (call C entered))) ∧
  wire r' =
    (wire hooked ++ EvWriteHeader (status r') (header r') ::
       dispatch_of (endHooks hooked))%list ∧
  (∀ e, e ∈ dispatch_of (endHooks hooked) →
     e = EvGo (endHooks hooked) ∧
     ∀ r0, goroutine e r0
           = foldl (fun r1 h => call h r1) r0 (reverse (endHooks hooked))) ∧
  (∀ A B C, endHooks hooked = [A; B; C] →
     dispatch_of (endHooks hooked) = [EvGo [A; B; C]] ∧
     ∀ r0, goroutine (EvGo [A; B; C]) r0 = call A (call B (call C r0))) ∧
  (∀ r0, foldl (fun r1 e => goroutine e r1) r0 (dispatch_of (endHooks hooked))
         = runHooks (endHooks hooked) r0).
Proof.
  intros Hflag. split; [apply runHooks_foldl|]. split; [done|].
  intros entered hooked r'.
  destruct (WriteHeader_shape code r Hflag) as (_ & _ & _ & _ & _ & Hw).
  assert (at_pc code AtNormalize r = hooked) as Heq.
  { unfold at_pc, commit_hooks. fold entered.
    destruct (commit_status_keeps code (set_wroteHeader true r))
      as (_ & Hhooks & _).
    fold entered in Hhooks. by rewrite Hhooks. }
  rewrite Heq in Hw.
  split; [by subst hooked; intros A B C ->|].
  split; [exact Hw|]. split; [|split].
  - intros e He. unfold dispatch_of in He.
    destruct (endHooks hooked) as [|h hs] eqn:Hend.
    + by apply not_elem_of_nil in He.
    + apply list_elem_of_singleton in He. subst e.
      split; [done|]. intros r0. cbn [goroutine]. apply runHooks_foldl.
  - by intros A B C ->.
  - intros r0. unfold dispatch_of. by destruct (endHooks hooked).
Qed.

(** C5: on a response that is not committed, [Write] sets the status
    to 200 when it is 0, calls [WriteHeader(0)], hands the bytes as
    they are to the transport and returns the transport's answer, so
    that the write follows the header commit on the wire; with no
    before-commit hook, status 0 and 200 recognized, the status
    committed is 200.  On a committed response it does the last two
    steps only. *)
Theorem Write_commits_then_passes (buf : list byte) (r : Response) :
  (wroteHeader r = false →
     let r0 := if status r =? 0 then set_status 200 r else r in
     let r' := WriteHeader 0 r0 in
     let hooked := at_pc 0 AtNormalize r0 in
     Write buf r = (rw_Write r' buf, emit (EvWrite buf) r') ∧
     (status r = 0 → status r0 = 200) ∧ (status r ≠ 0 → r0 = r) ∧
     wire (Write buf r).2 =
       (wire hooked ++ EvWriteHeader (status r') (header r') ::
          dispatch_of (endHooks hooked) ++ [EvWrite buf])%list ∧
     (afterHooks r = [] → status r = 0 → IsStatusCode 200 = true →
        wire (Write buf r).2 =
          (wire r ++ EvWriteHeader 200 (header r') ::
             dispatch_of (endHooks r) ++ [EvWrite buf])%list)) ∧
  (wroteHeader r = true →
     Write buf r = (rw_Write r buf, emit (EvWrite buf) r) ∧
     wire (Write buf r).2 = (wire r ++ [EvWrite buf])%list ∧
     status (Write buf r).2 = status r ∧ body (Write buf r).2 = body r ∧
     header (Write buf r).2 = header r).
Proof.
  split; intros Hflag.
  - intros r0 r' hooked.
    assert (wroteHeader r0 = false) as Hflag0.
    { subst r0. by destruct (status r =? 0). }
    assert (Write buf r = (rw_Write r' buf, emit (EvWrite buf) r')) as Hwrite.
    { unfold Write, isTrue. by rewrite Hflag. }
    destruct (WriteHeader_shape 0 r0 Hflag0) as (Hs & _ & _ & _ & _ & Hw).
    fold r' in Hs, Hw. fold hooked in Hs, Hw.
    assert (wire (Write buf r).2 =
              (wire hooked ++ EvWriteHeader (status r') (header r') ::
                 dispatch_of (endHooks hooked) ++ [EvWrite buf])%list) as Hwire.
    { rewrite Hwrite. cbn [snd emit wire]. rewrite Hw.
      by rewrite <- app_assoc. }
    split; [done|]. split; [by subst r0; intros ->|].
    split; [subst r0; intros Hne; by destruct (Z.eqb_spec (status r) 0)|].
    split; [done|].
    intros Hnone Hzero Hok. rewrite Hwire.
    assert (r0 = set_status 200 r) as Hr0 by (by subst r0; rewrite Hzero).
    destruct (entered_status_plain 0 r0) as (Hst & He & Hw0).
    { by rewrite Hr0. }
    fold hooked in Hst, He, Hw0. cbn [Z.ltb Z.compare] in Hst.
    rewrite Hs, commit_normalize_fields. cbn [status set_body set_status].
    rewrite Hst, He, Hw0, Hr0. cbn [status endHooks wire set_status].
    by rewrite Hok.
  - unfold Write, isTrue. by rewrite Hflag.
Qed.

Lemma dispatched_app l1 l2 :
  dispatched (l1 ++ l2) = (dispatched l1 ++ dispatched l2)%list.
Proof. unfold dispatched. by rewrite omap_app, concat_app. Qed.

Lemma dispatched_writes bufs : dispatched (EvWrite <$> bufs) = [].
Proof. by induction bufs. Qed.

Lemma dispatched_commit st hdr (hooks : list Hook) :
  dispatched (EvWriteHeader st hdr :: dispatch_of hooks) = hooks.
Proof. destruct hooks; [done|]. unfold dispatched. cbn. by rewrite app_nil_r. Qed.

(** A commit that goes through hands the after-commit chain, as it
    stands then, to [go runHooks] once. *)
Lemma WriteHeader_dispatched_once code r :
  wroteHeader r = false →
  Forall respects_gate (afterHooks r) →
  dispatched (wire (WriteHeader code r))
    = (dispatched (wire r) ++ endHooks (WriteHeader code r))%list.
Proof.
  intros Hflag Hall.
  destruct (WriteHeader_shape code r Hflag) as (_ & _ & _ & He & _ & Hw).
  destruct (after_hooks_committed code r Hall) as (_ & bufs & Hwire).
  rewrite Hw, He, Hwire, !dispatched_app, dispatched_writes, app_nil_r.
  by rewrite dispatched_commit.
Qed.

(** C1: once a commit has gone through, any later [WriteHeader],
    whatever its status, returns the response as it is: status, body,
    headers and wire are untouched and no hook runs.  Over both calls
    the wire gains exactly one header commit, and the after-commit chain
    is dispatched exactly once: the hooks handed to [go runHooks] are
    those of the chain as it stood at the commit, each one time, in at
    most one [go] statement. *)
Theorem WriteHeader_idempotent (c1 c2 : Z) (r : Response) :
  wroteHeader r = false →
  Forall respects_gate (afterHooks r) →
  let r1 := WriteHeader c1 r in
  let r2 := WriteHeader c2 r1 in
  wroteHeader r1 = true ∧
  r2 = r1 ∧
  (∀ code r', wroteHeader r' = true → WriteHeader code r' = r') ∧
  commits (wire r2) = S (commits (wire r)) ∧
  dispatched (wire r2) = (dispatched (wire r) ++ endHooks r1)%list ∧
  (dispatches (wire r2) ≤ S (dispatches (wire r)))%nat.
Proof.
  intros Hflag Hall r1 r2.
  destruct (WriteHeader_commits_once c1 r Hflag Hall) as (Hset & Hc & Hd & _).
  pose proof (WriteHeader_dispatched_once c1 r Hflag Hall) as Hgo.
  fold r1 in Hset, Hc, Hd, Hgo.
  assert (r2 = r1) as Hsame by (by apply WriteHeader_committed).
  rewrite Hsame. split; [done|]. split; [done|].
  split; [intros code r'; apply WriteHeader_committed|].
  split; [done|]. split; [done|].
  rewrite Hd. destruct (endHooks r1); lia.
Qed.

(** ** Two callers at the gate *)

Lemma commit_content_length_flag r :
  wroteHeader (commit_content_length r) = wroteHeader r.
Proof. unfold commit_content_length. by destruct (body r). Qed.

Lemma commit_transport_flag r :
  wroteHeader (commit_transport r) = wroteHeader r.
Proof. reflexivity. Qed.

(** Whoever has won the swap works on a response whose flag is set. *)
Lemma at_pc_flag c p r :
  Forall respects_gate (afterHooks r) →
  p ≠ AtSwap → wroteHeader (at_pc c p r) = true.
Proof.
  intros Hall Hp.
  destruct (after_hooks_committed c r Hall) as [Hhooked _].
  destruct (commit_status_keeps c (set_wroteHeader true r)) as (Hst & _).
  destruct (commit_normalize_keeps (at_pc c AtNormalize r)) as (Hn & _).
  destruct (commit_tail (commit_normalize (at_pc c AtNormalize r)))
    as (_ & _ & Htail & _).
  set (normal := commit_normalize (at_pc c AtNormalize r)) in *.
  destruct p.
  - done.
  - reflexivity.
  - reflexivity.
  - unfold at_pc. by rewrite Hst.
  - exact Hhooked.
  - change (wroteHeader normal = true). by rewrite Hn.
  - change (wroteHeader (commit_content_length normal) = true).
    by rewrite commit_content_length_flag, Hn.
  - change (wroteHeader (commit_transport (commit_content_length normal))
            = true).
    rewrite commit_transport_flag. by rewrite commit_content_length_flag, Hn.
  - change (wroteHeader
              (commit_dispatch (commit_transport (commit_content_length normal)))
            = true).
    by rewrite Htail, Hn.
Qed.

(** The winner's next step takes it to the next point of its path. *)
Lemma winner_step c p r :
  p ≠ AtSwap →
  ∃ p', thread_step c p (at_pc c p r) = (p', at_pc c p' r) ∧ p' ≠ AtSwap.
Proof.
  intros Hp.
  destruct p;
    [ done | exists AtStatus | exists AtHooks | exists AtNormalize
    | exists AtContentLength | exists AtTransport | exists AtDispatch
    | exists AtReturn | exists AtReturn ];
    (split; [reflexivity|discriminate]).
Qed.

Lemma first_swap_wins c r :
  wroteHeader r = false →
  thread_step c AtSwap r = (AtEnded, at_pc c AtEnded r).
Proof. intros Hflag. unfold thread_step, swapTrue. by rewrite Hflag. Qed.

(** A swap on a set flag changes nothing and sends the caller home. *)
Lemma late_swap_loses c r :
  wroteHeader r = true → thread_step c AtSwap r = (AtReturn, r).
Proof.
  intros Hflag. unfold thread_step, swapTrue. rewrite Hflag. simpl.
  f_equal. rewrite <- Hflag. apply set_wroteHeader_same.
Qed.

(** Every step uses up one of the finitely many steps the two callers
    have left, so every schedule ends. *)
Lemma step_decreases c1 c2 cfg cfg' :
  step c1 c2 cfg cfg' →
  (steps_left (pc1 cfg') + steps_left (pc2 cfg')
     < steps_left (pc1 cfg) + steps_left (pc2 cfg))%nat.
Proof.
  intros [[s p q] Hp|[s p q] Hq]; cbn [pc1 pc2 shared] in *.
  - destruct p; try done; cbn; try lia.
    destruct (wroteHeader s); cbn; lia.
  - destruct q; try done; cbn; try lia.
    destruct (wroteHeader s); cbn; lia.
Qed.

(** At any moment nobody has swapped yet, or one caller has won and
    stands somewhere on its path while the other has not swapped yet
    or has returned. *)
Lemma gate_invariant c1 c2 r cfg :
  wroteHeader r = false →
  Forall respects_gate (afterHooks r) →
  rtc (step c1 c2) (both_enter r) cfg →
  cfg = both_enter r ∨
  (pc1 cfg ≠ AtSwap ∧ shared cfg = at_pc c1 (pc1 cfg) r ∧
     (pc2 cfg = AtSwap ∨ pc2 cfg = AtReturn)) ∨
  (pc2 cfg ≠ AtSwap ∧ shared cfg = at_pc c2 (pc2 cfg) r ∧
     (pc1 cfg = AtSwap ∨ pc1 cfg = AtReturn)).
Proof.
  intros Hflag Hall Hrun. revert cfg Hrun.
  apply rtc_ind_r; [by left|].
  intros y z _ Hstep IH. right.
  destruct Hstep as [[s p q] Hp|[s p q] Hq]; cbn [pc1 pc2 shared] in *.
  - destruct IH
      as [Hinit | [(Hown & -> & Hother) | (Hown & -> & Hother)]].
    + injection Hinit as -> -> ->.
      left. rewrite first_swap_wins by done. cbn. auto.
    + left. destruct (winner_step c1 p r Hown) as (p' & -> & Hp').
      cbn. auto.
    + destruct Hother as [-> | ->]; [|done].
      right. rewrite late_swap_loses by (by apply at_pc_flag).
      cbn. auto.
  - destruct IH
      as [Hinit | [(Hown & -> & Hother) | (Hown & -> & Hother)]].
    + injection Hinit as -> -> ->.
      right. rewrite first_swap_wins by done. cbn. auto.
    + destruct Hother as [-> | ->]; [|done].
      left. rewrite late_swap_loses by (by apply at_pc_flag).
      cbn. auto.
    + right. destruct (winner_step c2 q r Hown) as (q' & -> & Hq').
      cbn. auto.
Qed.

(** The winner can walk its path to the end whatever the other does. *)
Lemma first_owner_returns c1 c2 r p q :
  p ≠ AtSwap →
  rtc (step c1 c2)
    {| shared := at_pc c1 p r; pc1 := p; pc2 := q |}
    {| shared := at_pc c1 AtReturn r; pc1 := AtReturn; pc2 := q |}.
Proof.
  intros Hp.
  destruct p; [done|..];
    repeat (eapply rtc_l;
            [ apply step_first; cbn [pc1]; discriminate
            | cbn [thread_step pc1 pc2 shared fst snd] ]);
    apply rtc_refl.
Qed.

Lemma second_owner_returns c1 c2 r p q :
  q ≠ AtSwap →
  rtc (step c1 c2)
    {| shared := at_pc c2 q r; pc1 := p; pc2 := q |}
    {| shared := at_pc c2 AtReturn r; pc1 := p; pc2 := AtReturn |}.
Proof.
  intros Hq.
  destruct q; [done|..];
    repeat (eapply rtc_l;
            [ apply step_second; cbn [pc2]; discriminate
            | cbn [thread_step pc1 pc2 shared fst snd] ]);
    apply rtc_refl.
Qed.

(** Either caller can be the one that commits. *)
Lemma first_caller_can_win c1 c2 r :
  wroteHeader r = false →
  Forall respects_gate (afterHooks r) →
  rtc (step c1 c2) (both_enter r) (both_returned (WriteHeader c1 r)).
Proof.
  intros Hflag Hall. rewrite WriteHeader_first by done.
  eapply rtc_l.
  { apply step_first. cbn. discriminate. }
  cbn [both_enter pc1 pc2 shared]. rewrite first_swap_wins by done.
  cbn [fst snd].
  etrans; [by apply first_owner_returns|].
  apply rtc_once.
  replace (both_returned (at_pc c1 AtReturn r)) with
    {| shared := (thread_step c2 AtSwap (at_pc c1 AtReturn r)).2;
       pc1 := AtReturn;
       pc2 := (thread_step c2 AtSwap (at_pc c1 AtReturn r)).1 |}
    by (by rewrite late_swap_loses by (by apply at_pc_flag)).
  by apply (step_second c1 c2
              {| shared := at_pc c1 AtReturn r; pc1 := AtReturn; pc2 := AtSwap |}).
Qed.

Lemma second_caller_can_win c1 c2 r :
  wroteHeader r = false →
  Forall respects_gate (afterHooks r) →
  rtc (step c1 c2) (both_enter r) (both_returned (WriteHeader c2 r)).
Proof.
  intros Hflag Hall. rewrite WriteHeader_first by done.
  eapply rtc_l.
  { apply step_second. cbn. discriminate. }
  cbn [both_enter pc1 pc2 shared]. rewrite first_swap_wins by done.
  cbn [fst snd].
  etrans; [by apply second_owner_returns|].
  apply rtc_once.
  replace (both_returned (at_pc c2 AtReturn r)) with
    {| shared := (thread_step c1 AtSwap (at_pc c2 AtReturn r)).2;
       pc1 := (thread_step c1 AtSwap (at_pc c2 AtReturn r)).1;
       pc2 := AtReturn |}
    by (by rewrite late_swap_loses by (by apply at_pc_flag)).
  by apply (step_first c1 c2
              {| shared := at_pc c2 AtReturn r; pc1 := AtSwap; pc2 := AtReturn |}).
Qed.

(** C2, as the code has it: when two callers race through the gate on
    an uncommitted response, every schedule that brings both home
    leaves the response exactly as a lone [WriteHeader] of one of the
    two would; the wire gains one header commit, and the status
    committed is what that caller's commit makes of its status (after
    hooks and normalization).  It is that caller's own status when no
    before-commit hook is registered and both statuses are recognized. *)
Theorem gate_single_winner (c1 c2 : Z) (r : Response) (cfg : config) :
  wroteHeader r = false →
  Forall respects_gate (afterHooks r) →
  rtc (step c1 c2) (both_enter r) cfg →
  pc1 cfg = AtReturn → pc2 cfg = AtReturn →
  (∃ c, (c = c1 ∨ c = c2) ∧
     shared cfg = WriteHeader c r ∧
     commits (wire (shared cfg)) = S (commits (wire r)) ∧
     committed_statuses (wire (shared cfg))
       = (committed_statuses (wire r) ++ [status (WriteHeader c r)])%list) ∧
  (afterHooks r = [] → 0 < c1 → 0 < c2 →
   IsStatusCode c1 = true → IsStatusCode c2 = true →
     ∃ c, (c = c1 ∨ c = c2) ∧
       committed_statuses (wire (shared cfg))
         = (committed_statuses (wire r) ++ [c])%list).
Proof.
  intros Hflag Hall Hrun Hp1 Hp2.
  assert (∃ c, (c = c1 ∨ c = c2) ∧ shared cfg = WriteHeader c r)
    as (c & Hc & Hshared).
  { destruct (gate_invariant c1 c2 r cfg Hflag Hall Hrun)
      as [-> | [(_ & Hs & _) | (_ & Hs & _)]].
    - discriminate Hp1.
    - exists c1. split; [by left|].
      by rewrite Hs, Hp1, WriteHeader_first.
    - exists c2. split; [by right|].
      by rewrite Hs, Hp2, WriteHeader_first. }
  destruct (WriteHeader_commits_once c r Hflag Hall) as (_ & Hone & _ & Hst).
  split.
  - exists c. by rewrite Hshared.
  - intros Hnone Hpos1 Hpos2 Hok1 Hok2. exists c. split; [done|].
    rewrite Hshared, Hst.
    by destruct Hc as [-> | ->]; rewrite WriteHeader_status_plain.
Qed.

End GateProperties.

(** ** The properties on the concrete environment *)

Lemma Model_hooks_respect_gate (hooks : list Hook) :
  Forall (@respects_gate Model.env) hooks.
Proof.
  apply Forall_forall. intros h _ r Hflag.
  destruct h as [|[|[|n]]]; (split; [exact Hflag|]);
    exists []; cbn; by rewrite app_nil_r.
Qed.

Lemma WriteHeader_normalizes_witness :
  let r := set_body (Some Model.hello) Model.fresh in
  wroteHeader r = false ∧
  status (@WriteHeader Model.env 204 r) = 204 ∧
  body (@WriteHeader Model.env 204 r) = None ∧
  status (@WriteHeader Model.env 999 r) = 200 ∧
  body (@WriteHeader Model.env 999 r) = Some Model.hello ∧
  status (@WriteHeader Model.env 0 Model.fresh) = 421.
Proof.
  intros r. split; [reflexivity|].
  pose proof (@WriteHeader_normalizes Model.env 204 r
                eq_refl eq_refl eq_refl eq_refl eq_refl eq_refl eq_refl)
    as (_ & _ & _ & _ & _ & H204 & _).
  pose proof (@WriteHeader_normalizes Model.env 999 r
                eq_refl eq_refl eq_refl eq_refl eq_refl eq_refl eq_refl)
    as (_ & _ & _ & _ & H999 & _).
  pose proof (@WriteHeader_normalizes Model.env 0 Model.fresh
                eq_refl eq_refl eq_refl eq_refl eq_refl eq_refl eq_refl)
    as (_ & _ & H0 & _).
  destruct (H204 Model.hello eq_refl eq_refl) as [-> ->].
  destruct (H999 Model.hello eq_refl eq_refl) as [-> ->].
  destruct (H0 eq_refl eq_refl) as [-> _].
  repeat split.
Defined.

Lemma WriteHeader_content_length_witness :
  let r := set_body (Some Model.hello) Model.fresh in
  wroteHeader r = false ∧
  ∃ hdr, wire (@WriteHeader Model.env 200 r) = [EvWriteHeader 200 hdr] ∧
         hdr !! "Content-Length" = Some ["5"].
Proof.
  intros r. split; [reflexivity|].
  destruct (@WriteHeader_content_length Model.env 200 r eq_refl)
    as (hdr & Hwire & Hlen & _).
  exists hdr. split; [exact Hwire|exact Hlen].
Defined.

Lemma hooks_run_LIFO_witness :
  let r := Model.with_hooks [3; 4; 5]%nat [6; 7; 8]%nat Model.fresh in
  let r' := @WriteHeader Model.env 200 r in
  wroteHeader r = false ∧
  header (@runHooks Model.env [3; 4; 5]%nat Model.fresh) !! "X-Trace"
    = Some ["2"; "1"; "0"] ∧
  (∃ hdr, wire r' = [EvWriteHeader 200 hdr; EvGo [6; 7; 8]%nat] ∧
          hdr !! "X-Trace" = Some ["2"; "1"; "0"]) ∧
  header (@goroutine Model.env (EvGo [6; 7; 8]%nat) r') !! "X-Trace"
    = Some ["2"; "1"; "0"; "5"; "4"; "3"].
Proof.
  intros r r'. split; [reflexivity|].
  destruct (@hooks_run_LIFO Model.env 200 r eq_refl)
    as (_ & Habc & _ & Hwire & _ & Hdetached & _).
  split; [rewrite Habc; reflexivity|]. split.
  - exists (header r'). split; [exact Hwire|reflexivity].
  - destruct (Hdetached 6%nat 7%nat 8%nat eq_refl) as [_ Hgo].
    rewrite Hgo. reflexivity.
Defined.

Lemma Write_commits_then_passes_witness :
  wroteHeader Model.fresh = false ∧
  (@Write Model.env Model.hello Model.fresh).1 = (5, nil_error) ∧
  wire (@Write Model.env Model.hello Model.fresh).2
    = [EvWriteHeader 200 ∅; EvWrite Model.hello].
Proof.
  split; [reflexivity|].
  destruct (@Write_commits_then_passes Model.env Model.hello Model.fresh)
    as [Hfirst _].
  destruct (Hfirst eq_refl) as (Hwrite & _ & _ & _ & Hwire).
  split; [by rewrite Hwrite|].
  by rewrite (Hwire eq_refl eq_refl eq_refl).
Defined.

Lemma WriteHeader_idempotent_witness :
  let r := Model.with_hooks [1]%nat [3; 4]%nat Model.fresh in
  let r1 := @WriteHeader Model.env 204 r in
  wroteHeader r = false ∧
  @WriteHeader Model.env 500 r1 = r1 ∧
  commits (wire (@WriteHeader Model.env 500 r1)) = 1%nat ∧
  dispatched (wire (@WriteHeader Model.env 500 r1)) = [3; 4]%nat.
Proof.
  intros r r1. split; [reflexivity|].
  destruct (@WriteHeader_idempotent Model.env 204 500 r eq_refl
              (Model_hooks_respect_gate _))
    as (_ & Hsame & _ & Hc & Hd & _).
  split; [exact Hsame|]. split; [exact Hc|exact Hd].
Defined.

Lemma gate_single_winner_witness :
  wroteHeader Model.fresh = false ∧
  ∃ c, (c = 200 ∨ c = 404) ∧
    committed_statuses
      (wire (shared (both_returned (@WriteHeader Model.env 200 Model.fresh))))
    = [c].
Proof.
  split; [reflexivity|].
  destruct (@gate_single_winner Model.env 200 404 Model.fresh
              (both_returned (@WriteHeader Model.env 200 Model.fresh))
              eq_refl (Model_hooks_respect_gate _)
              (@first_caller_can_win Model.env 200 404 Model.fresh eq_refl
                 (Model_hooks_respect_gate _))
              eq_refl eq_refl)
    as [_ Hplain].
  exact (Hplain eq_refl eq_refl eq_refl eq_refl eq_refl).
Defined.

(** C2 as stated fails.  Callers with the statuses 999 and 200 on a
    fresh response: on the schedule that lets the first one win, the
    status on the wire is 421.  Callers with 998 and 999: a schedule
    brings both home, and on every such schedule the one status on the
    wire is 421, which is neither of the two. *)
Lemma race_commits_neither_status :
  rtc (@step Model.env 999 200) (both_enter Model.fresh)
    (both_returned (@WriteHeader Model.env 999 Model.fresh)) ∧
  committed_statuses (wire (@WriteHeader Model.env 999 Model.fresh)) = [421] ∧
  rtc (@step Model.env 998 999) (both_enter Model.fresh)
    (both_returned (@WriteHeader Model.env 998 Model.fresh)) ∧
  (∀ cfg, rtc (@step Model.env 998 999) (both_enter Model.fresh) cfg →
     pc1 cfg = AtReturn → pc2 cfg = AtReturn →
     committed_statuses (wire (shared cfg)) = [421]) ∧
  421 ≠ 200 ∧ 421 ≠ 998 ∧ 421 ≠ 999.
Proof.
  split; [|split; [reflexivity|split; [|split; [|done]]]].
  - apply (@first_caller_can_win Model.env); [reflexivity|].
    apply Model_hooks_respect_gate.
  - apply (@first_caller_can_win Model.env); [reflexivity|].
    apply Model_hooks_respect_gate.
  - intros cfg Hrun Hp1 Hp2.
    destruct (@gate_invariant Model.env 998 999 Model.fresh cfg eq_refl
                (Model_hooks_respect_gate _) Hrun)
      as [-> | [(_ & -> & _) | (_ & -> & _)]].
    + discriminate Hp1.
    + by rewrite Hp1.
    + by rewrite Hp2.
Qed.

(** * Further properties *)

(** ** Header keys and their case *)

Lemma to_lower_idempotent c :
  textproto.to_lower (textproto.to_lower c) = textproto.to_lower c.
Proof. by destruct c as [[] [] [] [] [] [] [] []]. Qed.

Lemma to_upper_to_lower c :
  textproto.to_upper (textproto.to_lower c) = textproto.to_upper c.
Proof. by destruct c as [[] [] [] [] [] [] [] []]. Qed.

Lemma valid_to_lower c :
  textproto.validHeaderFieldByte (textproto.to_lower c)
  = textproto.validHeaderFieldByte c.
Proof. by destruct c as [[] [] [] [] [] [] [] []]. Qed.

Lemma canonicalize_lowercase upper s :
  textproto.canonicalize upper (lowercase s) = textproto.canonicalize upper s.
Proof.
  revert upper. induction s as [|c rest IH]; intros upper; [done|].
  cbn [lowercase textproto.canonicalize].
  destruct upper; by rewrite ?to_upper_to_lower, ?to_lower_idempotent, IH.
Qed.

Lemma token_key_lowercase s : token_key (lowercase s) = token_key s.
Proof.
  unfold token_key. induction s as [|c rest IH]; [done|].
  cbn [lowercase list_ascii_of_string forallb].
  by rewrite valid_to_lower, IH.
Qed.

Lemma canonical_lowercase key :
  token_key key = true →
  http.CanonicalHeaderKey (lowercase key) = http.CanonicalHeaderKey key.
Proof.
  intros Htok. unfold http.CanonicalHeaderKey, textproto.CanonicalMIMEHeaderKey.
  fold (token_key (lowercase key)). fold (token_key key).
  by rewrite token_key_lowercase, Htok, canonicalize_lowercase.
Qed.

Lemma canonical_verbatim key :
  token_key key = false → http.CanonicalHeaderKey key = key.
Proof.
  intros Htok. unfold http.CanonicalHeaderKey, textproto.CanonicalMIMEHeaderKey.
  fold (token_key key). by rewrite Htok.
Qed.

(** X1: [Set] then [Get] on one key gives the value back and [Get] after
    [Del] gives the empty string; [Set] replaces what an earlier [Set]
    stored, [Del] undoes a [Set], and a key with another canonical form
    is not affected by either. *)
Theorem header_accessors_roundtrip (key value : string) (r : Response) :
  Get key (Set_ key value r) = value ∧
  Get key (Del key r) = EmptyString ∧
  (∀ old, Set_ key value (Set_ key old r) = Set_ key value r) ∧
  Del key (Set_ key value r) = Del key r ∧
  (∀ key', http.CanonicalHeaderKey key' ≠ http.CanonicalHeaderKey key →
     Get key' (Set_ key value r) = Get key' r ∧
     Get key' (Del key r) = Get key' r).
Proof.
  unfold Get, Set_, Del, http.Get, http.Set_, http.Del.
  cbn [header set_header].
  split; [by rewrite lookup_insert_eq|].
  split; [by rewrite lookup_delete_eq|].
  split; [intros old; by rewrite insert_insert_eq|].
  split; [by rewrite delete_insert_eq|].
  intros key' Hne. by rewrite lookup_insert_ne, lookup_delete_ne.
Qed.

(** X2: for a key made of token characters, [Get], [Set] and [Del] do
    not see the case of its letters: the lower-case spelling reads,
    writes and deletes the same entry.  A key with any other byte is
    used as it is written. *)
Theorem header_accessors_ignore_case (key : string) (r : Response) :
  (token_key key = true →
     Get (lowercase key) r = Get key r ∧
     (∀ value, Set_ (lowercase key) value r = Set_ key value r) ∧
     Del (lowercase key) r = Del key r ∧
     (∀ value, Get (lowercase key) (Set_ key value r) = value)) ∧
  (token_key key = false →
     ∀ value, header (Set_ key value r) !! key = Some [value]).
Proof.
  split.
  - intros Htok. pose proof (canonical_lowercase key Htok) as Hcanon.
    unfold Get, Set_, Del, http.Get, http.Set_, http.Del.
    cbn [header set_header]. rewrite Hcanon.
    repeat split. intros value. by rewrite lookup_insert_eq.
  - intros Htok value. unfold Set_, http.Set_. cbn [header set_header].
    by rewrite (canonical_verbatim key Htok), lookup_insert_eq.
Qed.

Lemma header_accessors_ignore_case_witness :
  token_key "Content-Type" = true ∧
  Get "content-type" (Set_ "Content-Type" "text/html" Model.fresh)
    = "text/html" ∧
  token_key "X Trace" = false ∧
  header (Set_ "X Trace" "1" Model.fresh) !! "X Trace" = Some ["1"].
Proof.
  destruct (header_accessors_ignore_case "Content-Type" Model.fresh)
    as [Htoken _].
  destruct (Htoken eq_refl) as (_ & _ & _ & Hget).
  destruct (header_accessors_ignore_case "X Trace" Model.fresh)
    as [_ Hverbatim].
  split; [reflexivity|]. split; [apply (Hget "text/html")|].
  split; [reflexivity|]. apply (Hverbatim eq_refl "1").
Defined.

(** ** Vary over several calls *)

Lemma Get_Vary_after_wildcard r : Get HeaderVary (Vary "*" r) = "*".
Proof.
  destruct (decide (Get HeaderVary r = "*")) as [Hstar|Hne].
  - by rewrite Vary_wildcard_present.
  - rewrite Vary_set_wildcard by done. rewrite Get_Vary_values.
    cbn [header set_header]. by rewrite lookup_insert_eq.
Qed.

Lemma Vary_all_wildcard_present fields r :
  Get HeaderVary r = "*" → foldl (fun r0 f => Vary f r0) r fields = r.
Proof.
  intros Hstar. induction fields as [|f fields IH]; [done|].
  cbn [foldl]. by rewrite Vary_wildcard_present.
Qed.

(** X3: the wildcard is final: after [Vary("*")] no sequence of further
    [Vary] calls changes the response, and the Vary header keeps reading
    "*". *)
Theorem Vary_wildcard_final (fields : list string) (r : Response) :
  foldl (fun r0 f => Vary f r0) (Vary "*" r) fields = Vary "*" r ∧
  Get HeaderVary (foldl (fun r0 f => Vary f r0) (Vary "*" r) fields) = "*".
Proof.
  rewrite Vary_all_wildcard_present by apply Get_Vary_after_wildcard.
  split; [done|apply Get_Vary_after_wildcard].
Qed.

Lemma Get_Vary_after_append field r :
  field ≠ EmptyString → field ≠ "*" → Get HeaderVary r ≠ "*" →
  Get HeaderVary (Vary field r) ≠ "*".
Proof.
  intros Hne Hns Hg. rewrite Vary_append by done. rewrite Get_Vary_values.
  cbn [header set_header]. rewrite lookup_insert_eq. cbn [default].
  rewrite Get_Vary_values in Hg.
  by destruct (default [] (header r !! "Vary")).
Qed.

(** X4: a sequence of [Vary] calls with fields that are neither empty
    nor "*", on a response whose Vary header does not read "*", appends
    all of them in call order, repeated fields included, after the
    values already there; no other header and nothing else of the
    response changes. *)
Theorem Vary_sequence_appends (fields : list string) (r : Response) :
  Forall (fun f => f ≠ EmptyString ∧ f ≠ "*") fields →
  Get HeaderVary r ≠ "*" →
  let r' := foldl (fun r0 f => Vary f r0) r fields in
  default [] (header r' !! "Vary")
    = (default [] (header r !! "Vary") ++ fields)%list ∧
  (∀ key, key ≠ "Vary" → header r' !! key = header r !! key) ∧
  r' = set_header (header r') r.
Proof.
  intros Hall. revert r.
  induction Hall as [|f fields [Hne Hns] _ IH]; intros r Hg r'.
  - subst r'. cbn [foldl]. rewrite app_nil_r.
    repeat split. by destruct r.
  - subst r'. cbn [foldl].
    destruct (IH (Vary f r) (Get_Vary_after_append f r Hne Hns Hg))
      as (Hvals & Hother & Hrest).
    split; [|split].
    + rewrite Hvals, Vary_append by done. cbn [header set_header].
      rewrite lookup_insert_eq. cbn [default from_option id].
      by rewrite <- app_assoc.
    + intros key Hkey. rewrite Hother, Vary_append by done.
      cbn [header set_header]. by rewrite lookup_insert_ne.
    + rewrite Hrest at 1. by rewrite Vary_append.
Qed.

Lemma Vary_sequence_appends_witness :
  default [] (header (foldl (fun r0 f => Vary f r0) Model.fresh
                        ["Accept"; "Origin"; "Accept"]) !! "Vary")
  = ["Accept"; "Origin"; "Accept"].
Proof.
  destruct (Vary_sequence_appends ["Accept"; "Origin"; "Accept"] Model.fresh)
    as (Hvals & _ & _).
  - repeat constructor; discriminate.
  - vm_compute. discriminate.
  - exact Hvals.
Defined.

(** ** ResetHeader: twice, and with a nil regexp *)

(** X5: with a first regexp that is not nil, [ResetHeader] returns a
    response whose header map is a part of the one before and holds
    matching keys only, and a second [ResetHeader] with the same
    arguments changes nothing more. *)
Theorem ResetHeader_idempotent
    (f : Regexp) (rest : list (option Regexp)) (r : Response) :
  ∃ r1,
    ResetHeader (Some f :: rest) r = Returned r1 ∧
    ResetHeader (Some f :: rest) r1 = Returned r1 ∧
    header r1 ⊆ header r ∧
    (∀ key, is_Some (header r1 !! key) → f key = true).
Proof.
  destruct (ResetHeader_keeps f rest r) as (h1 & Hrun & Hlook).
  exists (set_header h1 r). split; [exact Hrun|].
  destruct (ResetHeader_keeps f rest (set_header h1 r)) as (h2 & Hrun2 & Hlook2).
  cbn [header set_header] in Hlook2 |- *.
  assert (h2 = h1) as ->.
  { apply map_eq. intros key. rewrite Hlook2, Hlook. by destruct (f key). }
  split; [exact Hrun2|]. split.
  - apply map_subseteq_spec. intros key v. rewrite Hlook.
    by destruct (f key).
  - intros key. rewrite Hlook. destruct (f key); [done|]. by intros [? ?].
Qed.

(** X6: [ResetHeader] with a nil first regexp returns the response
    untouched when there is no header at all, and panics as soon as
    there is one, whatever regexps follow. *)
Theorem ResetHeader_nil_regexp (rest : list (option Regexp)) (r : Response) :
  (header r = ∅ → ResetHeader (None :: rest) r = Returned r) ∧
  (header r ≠ ∅ → ∃ msg, ResetHeader (None :: rest) r = Panicked msg).
Proof.
  unfold ResetHeader, ResetHeader_in. split.
  - intros Hempty. rewrite Hempty, map_to_list_empty.
    cbn [fmap list_fmap ResetHeader_range obind].
    rewrite <- Hempty. by destruct r.
  - intros Hne.
    destruct (map_to_list (header r)) as [|[key v] l] eqn:Hl.
    + by apply map_to_list_empty_iff in Hl.
    + cbn. eauto.
Qed.

Lemma ResetHeader_nil_regexp_witness :
  ResetHeader [None] Model.fresh = Returned Model.fresh ∧
  ∃ msg, ResetHeader [None] (Set_ "Accept" "text/html" Model.fresh)
         = Panicked msg.
Proof.
  destruct (ResetHeader_nil_regexp [] Model.fresh) as [Hnone _].
  destruct (ResetHeader_nil_regexp [] (Set_ "Accept" "text/html" Model.fresh))
    as [_ Hsome].
  split; [apply Hnone; reflexivity|].
  apply Hsome. intros Hempty.
  apply (f_equal (fun h : Header => h !! "Accept")) in Hempty.
  vm_compute in Hempty. discriminate Hempty.
Defined.

(** ** The default header filter *)

Lemma fold_prefix_own_case p suffix :
  regexp.fold_prefix (lowercase p) (p ++ suffix) = true.
Proof.
  induction p as [|c p IH]; [done|].
  change (String c p ++ suffix)%string with (String c (p ++ suffix)%string).
  cbn [lowercase regexp.fold_prefix regexp.fold_literal].
  by rewrite Ascii.eqb_refl.
Qed.

Lemma ascii_not_lead c :
  (textproto.code c <? 128)%nat = true →
  Ascii.eqb c "197" = false ∧ Ascii.eqb c "226" = false.
Proof. by destruct c as [[] [] [] [] [] [] [] []]. Qed.

Lemma fold_literal_ascii p c rest rest' :
  (textproto.code c <? 128)%nat = true →
  regexp.fold_literal p (String c rest) = Some rest' →
  textproto.to_lower c = p ∧ rest' = rest.
Proof.
  intros Hc. destruct (ascii_not_lead c Hc) as [H197 H226].
  cbn [regexp.fold_literal]. rewrite H197, H226, !andb_false_r.
  destruct (Ascii.eqb_spec (textproto.to_lower c) p); [|done].
  by intros [= ->].
Qed.

Lemma fold_prefix_ascii lit s :
  ascii_only s = true →
  regexp.fold_prefix lit s = true →
  ∃ p suffix, s = (p ++ suffix)%string ∧ lowercase p = lit.
Proof.
  revert s. induction lit as [|q lit IH]; intros s Hs.
  - intros _. by exists EmptyString, s.
  - cbn [regexp.fold_prefix].
    destruct s as [|c rest]; [done|].
    unfold ascii_only in Hs. cbn [list_ascii_of_string forallb] in Hs.
    apply andb_true_iff in Hs as [Hc Hrest].
    destruct (regexp.fold_literal q (String c rest)) as [rest'|] eqn:Hlit;
      [|done].
    destruct (fold_literal_ascii q c rest rest' Hc Hlit) as [<- ->].
    intros Hmatch. destruct (IH rest Hrest Hmatch) as (p & suffix & -> & <-).
    by exists (String c p), suffix.
Qed.

(** X7: the default filter is anchored at the start of the key and
    looks no further than one of its seven names: a key that starts, in
    any letter case, with accept, allow, retry-after, warning, vary,
    access-control-allow- or x-ratelimit- is kept whatever follows, and
    a key of ASCII bytes is kept only if it starts that way. *)
Theorem defaultHeaderFilterReg_prefix (key : string) :
  (∀ name p suffix,
     name ∈ ["accept"; "allow"; "retry-after"; "warning"; "vary";
             "access-control-allow-"; "x-ratelimit-"] →
     lowercase p = name → key = (p ++ suffix)%string →
     defaultHeaderFilterReg key = true) ∧
  (ascii_only key = true → defaultHeaderFilterReg key = true →
     ∃ name p suffix,
       name ∈ ["accept"; "allow"; "retry-after"; "warning"; "vary";
               "access-control-allow-"; "x-ratelimit-"] ∧
       lowercase p = name ∧ key = (p ++ suffix)%string).
Proof.
  unfold defaultHeaderFilterReg, regexp.fold_prefix_any. split.
  - intros name p suffix Hin <- ->. apply existsb_exists.
    exists (lowercase p). split; [by apply list_elem_of_In|].
    apply fold_prefix_own_case.
  - intros Hascii Hkept. apply existsb_exists in Hkept as (name & Hin & Hmatch).
    destruct (fold_prefix_ascii name key Hascii Hmatch) as (p & suffix & -> & <-).
    exists (lowercase p), p, suffix. split; [by apply list_elem_of_In|done].
Qed.

Lemma defaultHeaderFilterReg_prefix_witness :
  defaultHeaderFilterReg "X-RateLimit-Remaining" = true ∧
  defaultHeaderFilterReg "ACCESS-control-ALLOW-Origin" = true ∧
  ∃ name p suffix,
    name ∈ ["accept"; "allow"; "retry-after"; "warning"; "vary";
            "access-control-allow-"; "x-ratelimit-"] ∧
    lowercase p = name ∧ "Retry-After" = (p ++ suffix)%string.
Proof.
  split; [|split].
  - destruct (defaultHeaderFilterReg_prefix "X-RateLimit-Remaining") as [H _].
    apply (H "x-ratelimit-" "X-RateLimit-" "Remaining");
      [rewrite !elem_of_cons; tauto|reflexivity|reflexivity].
  - destruct (defaultHeaderFilterReg_prefix "ACCESS-control-ALLOW-Origin")
      as [H _].
    apply (H "access-control-allow-" "ACCESS-control-ALLOW-" "Origin");
      [rewrite !elem_of_cons; tauto|reflexivity|reflexivity].
  - destruct (defaultHeaderFilterReg_prefix "Retry-After") as [_ H].
    apply H; reflexivity.
Defined.

Lemma eqb_to_lower_197 c :
  Ascii.eqb (textproto.to_lower c) "197" = Ascii.eqb c "197".
Proof. by destruct c as [[] [] [] [] [] [] [] []]. Qed.
Lemma eqb_to_lower_191 c :
  Ascii.eqb (textproto.to_lower c) "191" = Ascii.eqb c "191".
Proof. by destruct c as [[] [] [] [] [] [] [] []]. Qed.
Lemma eqb_to_lower_226 c :
  Ascii.eqb (textproto.to_lower c) "226" = Ascii.eqb c "226".
Proof. by destruct c as [[] [] [] [] [] [] [] []]. Qed.
Lemma eqb_to_lower_132 c :
  Ascii.eqb (textproto.to_lower c) "132" = Ascii.eqb c "132".
Proof. by destruct c as [[] [] [] [] [] [] [] []]. Qed.
Lemma eqb_to_lower_170 c :
  Ascii.eqb (textproto.to_lower c) "170" = Ascii.eqb c "170".
Proof. by destruct c as [[] [] [] [] [] [] [] []]. Qed.

Lemma fold_literal_lowercase p s :
  regexp.fold_literal p (lowercase s) = lowercase <$> regexp.fold_literal p s.
Proof.
  destruct s as [|c s1]; [done|].
  cbn [lowercase regexp.fold_literal].
  rewrite to_lower_idempotent, eqb_to_lower_197, eqb_to_lower_226.
  destruct (Ascii.eqb (textproto.to_lower c) p); [done|].
  destruct (Ascii.eqb p "s" && Ascii.eqb c "197").
  { destruct s1 as [|d s2]; [done|]. cbn [lowercase].
    rewrite eqb_to_lower_191. by destruct (Ascii.eqb d "191"). }
  destruct (Ascii.eqb p "k" && Ascii.eqb c "226"); [|done].
  destruct s1 as [|d [|e s3]]; [done|done|]. cbn [lowercase].
  rewrite eqb_to_lower_132, eqb_to_lower_170.
  by destruct (Ascii.eqb d "132" && Ascii.eqb e "170").
Qed.

Lemma fold_prefix_lowercase lit s :
  regexp.fold_prefix lit (lowercase s) = regexp.fold_prefix lit s.
Proof.
  revert s. induction lit as [|p lit IH]; intros s; [done|].
  cbn [regexp.fold_prefix]. rewrite fold_literal_lowercase.
  destruct (regexp.fold_literal p s) as [rest|]; [apply IH|done].
Qed.

(** X8: the default filter does not see the case of ASCII letters: it
    gives a key and its lower-case spelling the same answer, so that a
    default [ResetHeader] treats both spellings alike. *)
Theorem defaultHeaderFilterReg_ignores_case (key : string) :
  defaultHeaderFilterReg (lowercase key) = defaultHeaderFilterReg key.
Proof.
  unfold defaultHeaderFilterReg, regexp.fold_prefix_any.
  induction ["accept"; "allow"; "retry-after"; "warning"; "vary";
             "access-control-allow-"; "x-ratelimit-"] as [|lit lits IH];
    [done|].
  cbn [existsb]. by rewrite fold_prefix_lowercase, IH.
Qed.

Section MoreGateProperties.
Context `{Externals}.

(** ** Hook chains compose *)

(** X9: running a chain made of two parts runs the later-registered
    part first and then the earlier one; in particular a hook registered
    last runs before the whole chain registered before it, and an empty
    chain does nothing. *)
Theorem runHooks_app (earlier later : list Hook) (r : Response) :
  runHooks (earlier ++ later) r = runHooks earlier (runHooks later r) ∧
  (∀ h, runHooks (earlier ++ [h]) r = runHooks earlier (call h r)) ∧
  runHooks [] r = r.
Proof.
  rewrite !runHooks_foldl, reverse_app, foldl_app.
  split; [done|]. split; [|done].
  intros h. by rewrite !runHooks_foldl, reverse_app, foldl_app.
Qed.

(** ** After the commit *)

Lemma Write_committed buf r :
  wroteHeader r = true →
  Write buf r = (rw_Write r buf, emit (EvWrite buf) r).
Proof. intros Hflag. unfold Write, isTrue. by rewrite Hflag. Qed.

Lemma commits_one_write l buf :
  commits (l ++ [EvWrite buf]) = commits l ∧
  dispatches (l ++ [EvWrite buf]) = dispatches l.
Proof. destruct (commits_writes l [buf]) as (Hc & Hd & _). by split. Qed.

Lemma respond_committed code body_ r :
  wroteHeader r = true →
  respond code body_ r =
    match body_ with
    | Some bs => ((rw_Write (set_body body_ r) bs).2,
                  emit (EvWrite bs) (set_body body_ r))
    | None => (nil_error, set_body None r)
    end.
Proof.
  intros Hflag. unfold respond.
  rewrite (WriteHeader_committed code (set_body body_ r)) by done.
  cbn [body set_body]. destruct body_ as [bs|]; [|done].
  rewrite Write_committed by done.
  by destruct (rw_Write (set_body (Some bs) r) bs).
Qed.

(** X10: [respond] on a committed response ignores its status, makes no
    header commit and leaves status and headers alone (no Content-Length
    for the new body): it stores the body and, when it is not nil,
    writes its bytes to the transport and returns the transport's
    error; with a nil body it writes nothing and returns nil. *)
Theorem respond_after_commit
    (code : Z) (body_ : option (list byte)) (r : Response) :
  HeaderWrote r = true →
  let out := respond code body_ r in
  HeaderWrote out.2 = true ∧
  Status out.2 = Status r ∧ Body out.2 = body_ ∧ header out.2 = header r ∧
  commits (wire out.2) = commits (wire r) ∧
  dispatches (wire out.2) = dispatches (wire r) ∧
  match body_ with
  | Some bs =>
      out.1 = (rw_Write (set_body body_ r) bs).2 ∧
      wire out.2 = (wire r ++ [EvWrite bs])%list
  | None => out.1 = nil_error ∧ wire out.2 = wire r
  end.
Proof.
  intros Hflag out. subst out.
  unfold HeaderWrote, isTrue, Status, Body in *.
  rewrite respond_committed by done. destruct body_ as [bs|].
  - cbn [fst snd wroteHeader status body header wire emit set_body].
    destruct (commits_one_write (wire r) bs) as [-> ->].
    by repeat split.
  - by repeat split.
Qed.

Lemma Write_all_committed bufs r :
  wroteHeader r = true →
  let r' := foldl (fun r0 b => (Write b r0).2) r bufs in
  wroteHeader r' = true ∧
  wire r' = (wire r ++ (EvWrite <$> bufs))%list ∧
  status r' = status r ∧ body r' = body r ∧ header r' = header r.
Proof.
  revert r. induction bufs as [|b bufs IH]; intros r Hflag r'.
  - subst r'. cbn [foldl fmap list_fmap]. by rewrite app_nil_r.
  - subst r'. cbn [foldl]. rewrite Write_committed by done. cbn [snd].
    destruct (IH (emit (EvWrite b) r) Hflag) as (Hf & Hw & Hs & Hb & Hh).
    rewrite Hf, Hw, Hs, Hb, Hh. cbn [wire emit fmap list_fmap].
    by rewrite <- app_assoc.
Qed.

(** X11: on an uncommitted response whose commit finds no after-commit
    hook, so that no goroutine is started, a run of [Write] calls
    commits the header once, in the first call, and then hands every
    buffer to the transport in call order; status, body and headers
    stay as that commit left them and [HeaderWrote] reports true. *)
Theorem Write_sequence_commits_once
    (buf : list byte) (bufs : list (list byte)) (r : Response) :
  HeaderWrote r = false →
  Forall respects_gate (afterHooks r) →
  let r0 := if status r =? 0 then set_status 200 r else r in
  let rc := WriteHeader 0 r0 in
  let r' := foldl (fun r1 b => (Write b r1).2) r (buf :: bufs) in
  endHooks rc = [] →
  dispatched (wire r') = dispatched (wire r) ∧
  HeaderWrote r' = true ∧
  wire r' = (wire rc ++ (EvWrite <$> buf :: bufs))%list ∧
  commits (wire r') = S (commits (wire r)) ∧
  Status r' = Status rc ∧ Body r' = Body rc ∧ header r' = header rc.
Proof.
  intros Hflag Hall r0 rc r' Hquiet.
  unfold HeaderWrote, isTrue, Status, Body in *.
  assert (wroteHeader r0 = false ∧ afterHooks r0 = afterHooks r
          ∧ wire r0 = wire r) as (Hflag0 & Hhooks0 & Hwire0).
  { subst r0. by destruct (status r =? 0). }
  destruct (WriteHeader_commits_once 0 r0 Hflag0) as (Hset & Hone & _).
  { by rewrite Hhooks0. }
  pose proof (WriteHeader_dispatched_once 0 r0 Hflag0) as Hgo.
  rewrite Hhooks0 in Hgo. specialize (Hgo Hall).
  fold rc in Hset, Hone, Hgo. rewrite Hquiet, app_nil_r, Hwire0 in Hgo.
  assert ((Write buf r).2 = emit (EvWrite buf) rc) as Hfirst.
  { unfold Write, isTrue. by rewrite Hflag. }
  subst r'. cbn [foldl]. rewrite Hfirst.
  destruct (Write_all_committed bufs (emit (EvWrite buf) rc) Hset)
    as (Hf & Hw & Hs & Hb & Hh).
  rewrite Hf, Hw, Hs, Hb, Hh. cbn [wire emit status body header].
  rewrite <- app_assoc. split.
  { change ([EvWrite buf] ++ (EvWrite <$> bufs))%list
      with (EvWrite <$> buf :: bufs).
    by rewrite dispatched_app, dispatched_writes, app_nil_r. }
  split; [done|]. split; [done|].
  split; [|done].
  change ([EvWrite buf] ++ (EvWrite <$> bufs))%list
    with (EvWrite <$> buf :: bufs).
  destruct (commits_writes (wire rc) (buf :: bufs)) as (-> & _).
  by rewrite Hone, Hwire0.
Qed.

Lemma WriteHeader_body_length code r bs :
  wroteHeader r = false →
  body (WriteHeader code r) = Some bs →
  header (WriteHeader code r) !! "Content-Length" = Some [Itoa (len bs)].
Proof.
  intros Hflag.
  destruct (WriteHeader_shape code r Hflag) as (_ & -> & _ & _ & -> & _).
  unfold commit_content_length. intros ->.
  unfold Set_, http.Set_. cbn [header set_header].
  by rewrite canonical_ContentLength, lookup_insert_eq.
Qed.

(** X12: on an uncommitted response whose commit finds no after-commit
    hook, so that no goroutine is started, [respond] commits the header
    once and then writes exactly the body that normalization left: when
    that body is not nil its bytes go to the transport after the header
    commit, the committed Content-Length is their number and the
    transport's error is returned; when it is nil (no body given, or a
    body-less status) nothing is written and nil is returned. *)
Theorem respond_commits_then_writes
    (code : Z) (body_ : option (list byte)) (r : Response) :
  HeaderWrote r = false →
  Forall respects_gate (afterHooks r) →
  let rc := WriteHeader code (set_body body_ r) in
  let out := respond code body_ r in
  endHooks rc = [] →
  dispatched (wire out.2) = dispatched (wire r) ∧
  HeaderWrote out.2 = true ∧
  commits (wire out.2) = S (commits (wire r)) ∧
  match Body rc with
  | Some bs =>
      out = ((rw_Write rc bs).2, emit (EvWrite bs) rc) ∧
      wire out.2 = (wire rc ++ [EvWrite bs])%list ∧
      header rc !! "Content-Length" = Some [Itoa (len bs)]
  | None => out = (nil_error, rc)
  end.
Proof.
  intros Hflag Hall rc out Hquiet. unfold HeaderWrote, isTrue, Body in *.
  destruct (WriteHeader_commits_once code (set_body body_ r) Hflag Hall)
    as (Hset & Hone & _).
  pose proof (WriteHeader_dispatched_once code (set_body body_ r) Hflag Hall)
    as Hgo.
  fold rc in Hset, Hone, Hgo. cbn [wire set_body] in Hone, Hgo.
  rewrite Hquiet, app_nil_r in Hgo.
  subst out. unfold respond. fold rc.
  destruct (body rc) as [bs|] eqn:Hbody.
  - rewrite Write_committed by done.
    destruct (rw_Write rc bs) as [n err]. cbn [fst snd wroteHeader wire emit].
    destruct (commits_one_write (wire rc) bs) as [-> _].
    rewrite dispatched_app, Hgo, app_nil_r.
    repeat split; try done.
    by apply WriteHeader_body_length.
  - by repeat split.
Qed.

(** X13: whatever status the caller and the before-commit hooks asked
    for, the status a commit hands to the transport is a recognized
    one, or 200, or 421.  When the commit finds no after-commit hook,
    so that no goroutine is started, this is also what [Status] reports
    afterwards, and [Body] is not nil only next to the status 200 or to
    a status that is not body-less. *)
Theorem committed_status_and_body (code : Z) (r : Response) :
  HeaderWrote r = false →
  let hooked := at_pc code AtNormalize r in
  let r' := WriteHeader code r in
  ∃ s hdr,
    wire r' =
      (wire hooked ++ EvWriteHeader s hdr :: dispatch_of (endHooks hooked))%list ∧
    (IsStatusCode s = true ∨ s = 200 ∨ s = 421) ∧
    (endHooks r' = [] →
       Status r' = s ∧
       ∀ bs, Body r' = Some bs → s = 200 ∨ isEmptyStatus s = false).
Proof.
  intros Hflag hooked r'. unfold HeaderWrote, isTrue, Status, Body in *.
  destruct (WriteHeader_shape code r Hflag) as (Hs & Hb & _ & _ & _ & Hw).
  fold hooked in Hs, Hb, Hw. fold r' in Hs, Hb, Hw.
  exists (status r'), (header r'). split; [exact Hw|].
  rewrite Hb, Hs, commit_normalize_fields.
  cbn [status body set_body set_status].
  destruct (IsStatusCode (status hooked)) eqn:Hok; cbn [negb].
  - split; [by left|]. intros _. split; [done|]. intros bs.
    destruct (isEmptyStatus (status hooked)); [done|by right].
  - split; [destruct (body hooked); auto|].
    intros _. split; [done|]. intros bs ->. by left.
Qed.

(** ** Hooks that use the response *)

(** X14: the before-commit hooks run on a response that already counts
    as committed, so a hook that calls [Write] reaches the transport
    without a commit of its own: its bytes go on the wire ahead of the
    header commit of the running [WriteHeader]. *)
Theorem hook_write_precedes_header
    (h : Hook) (buf : list byte) (code : Z) (r : Response) :
  HeaderWrote r = false →
  afterHooks r = [h] →
  (∀ r0, HeaderWrote r0 = true → call h r0 = (Write buf r0).2) →
  let r' := WriteHeader code r in
  wire r' =
    (wire r ++ EvWrite buf :: EvWriteHeader (Status r') (header r') ::
       dispatch_of (endHooks r))%list.
Proof.
  intros Hflag Hone Hcall r'. unfold HeaderWrote, isTrue, Status in *.
  destruct (WriteHeader_shape code r Hflag) as (_ & _ & _ & _ & _ & Hw).
  fold r' in Hw. rewrite Hw.
  set (entered := commit_status code (commit_ended (set_wroteHeader true r))).
  destruct (commit_status_keeps code (set_wroteHeader true r))
    as (Hf & Hhooks & Hwire).
  fold entered in Hf, Hhooks, Hwire.
  cbn [wroteHeader afterHooks wire set_wroteHeader] in Hf, Hhooks, Hwire.
  assert (at_pc code AtNormalize r = emit (EvWrite buf) entered) as ->.
  { unfold at_pc, commit_hooks. fold entered. rewrite Hhooks, Hone.
    change (runHooks [h] entered) with (call h entered).
    rewrite Hcall by done. by rewrite Write_committed. }
  cbn [wire endHooks emit]. rewrite Hwire, <- app_assoc.
  assert (endHooks entered = endHooks r) as ->; [|done].
  subst entered. unfold commit_status. by destruct (0 <? code).
Qed.

Lemma Vary_keeps_gate field r :
  wroteHeader (Vary field r) = wroteHeader r ∧ wire (Vary field r) = wire r.
Proof.
  unfold Vary.
  by destruct (negb (String.eqb field EmptyString)
               && negb (String.eqb (Get HeaderVary r) "*")),
    (String.eqb field "*").
Qed.

(** X15: a hook that, on a committed response, does what one exported
    method of the response does ([WriteHeader], [Write], [respond],
    [Set], [Del] or [Vary]) leaves the committed flag set and adds
    nothing but raw writes to the wire. *)
Theorem exported_methods_respect_gate (h : Hook) :
  (∀ r, wroteHeader r = true →
     (∃ code, call h r = WriteHeader code r) ∨
     (∃ buf, call h r = (Write buf r).2) ∨
     (∃ code body_, call h r = (respond code body_ r).2) ∨
     (∃ key value, call h r = Set_ key value r) ∨
     (∃ key, call h r = Del key r) ∨
     (∃ field, call h r = Vary field r)) →
  respects_gate h.
Proof.
  intros Hmethod r Hflag.
  destruct (Hmethod r Hflag)
    as [[code ->] | [[buf ->] | [(code & body_ & ->) | [(key & value & ->)
        | [[key ->] | [field ->]]]]]].
  - rewrite WriteHeader_committed by done.
    split; [done|]. exists []. by rewrite app_nil_r.
  - rewrite Write_committed by done. split; [done|]. by exists [buf].
  - rewrite respond_committed by done. destruct body_ as [bs|].
    + split; [done|]. by exists [bs].
    + split; [done|]. exists []. by rewrite app_nil_r.
  - split; [done|]. exists []. by rewrite app_nil_r.
  - split; [done|]. exists []. by rewrite app_nil_r.
  - destruct (Vary_keeps_gate field r) as [-> ->].
    split; [done|]. exists []. by rewrite app_nil_r.
Qed.

(** ** The race, once more *)

(** X17: which caller commits is up to the schedule: each of the two
    wins on some schedule, and with no before-commit hook and two
    different recognized statuses the two outcomes differ. *)
Theorem race_either_wins (c1 c2 : Z) (r : Response) :
  HeaderWrote r = false →
  Forall respects_gate (afterHooks r) →
  rtc (step c1 c2) (both_enter r) (both_returned (WriteHeader c1 r)) ∧
  rtc (step c1 c2) (both_enter r) (both_returned (WriteHeader c2 r)) ∧
  (afterHooks r = [] → 0 < c1 → 0 < c2 →
   IsStatusCode c1 = true → IsStatusCode c2 = true → c1 ≠ c2 →
     Status (WriteHeader c1 r) ≠ Status (WriteHeader c2 r)).
Proof.
  unfold HeaderWrote, isTrue, Status. intros Hflag Hall.
  split; [by apply first_caller_can_win|].
  split; [by apply second_caller_can_win|].
  intros Hnone Hp1 Hp2 Hok1 Hok2 Hne.
  by rewrite !WriteHeader_status_plain.
Qed.

End MoreGateProperties.
Lemma respond_after_commit_witness :
  let r := @WriteHeader Model.env 204 Model.fresh in
  HeaderWrote r = true ∧
  committed_statuses
    (wire (@respond Model.env 500 (Some Model.hello) r).2) = [204] ∧
  wire (@respond Model.env 500 (Some Model.hello) r).2
    = (wire r ++ [EvWrite Model.hello])%list.
Proof.
  intros r. split; [reflexivity|]. split; [reflexivity|].
  destruct (@respond_after_commit Model.env 500 (Some Model.hello) r eq_refl)
    as (_ & _ & _ & _ & _ & _ & _ & Hwire).
  exact Hwire.
Defined.


Lemma Write_sequence_commits_once_witness :
  HeaderWrote Model.fresh = false ∧
  wire (foldl (fun r1 b => (@Write Model.env b r1).2) Model.fresh
          [Model.hello; Model.hello])
  = [EvWriteHeader 200 ∅; EvWrite Model.hello; EvWrite Model.hello].
Proof.
  split; [reflexivity|].
  destruct (@Write_sequence_commits_once Model.env Model.hello [Model.hello]
              Model.fresh eq_refl (Model_hooks_respect_gate _) eq_refl)
    as (_ & _ & Hwire & _).
  exact Hwire.
Defined.

Lemma respond_commits_then_writes_witness :
  HeaderWrote Model.fresh = false ∧
  let out := @respond Model.env 200 (Some Model.hello) Model.fresh in
  HeaderWrote out.2 = true ∧
  commits (wire out.2) = 1%nat ∧
  @respond Model.env 204 (Some Model.hello) Model.fresh
    = (nil_error, @WriteHeader Model.env 204
                    (set_body (Some Model.hello) Model.fresh)).
Proof.
  split; [reflexivity|].
  destruct (@respond_commits_then_writes Model.env 200 (Some Model.hello)
              Model.fresh eq_refl (Model_hooks_respect_gate _) eq_refl)
    as (_ & Hset & Hone & _).
  destruct (@respond_commits_then_writes Model.env 204 (Some Model.hello)
              Model.fresh eq_refl (Model_hooks_respect_gate _) eq_refl)
    as (_ & _ & _ & Hnone).
  split; [exact Hset|]. split; [exact Hone|exact Hnone].
Defined.

Lemma committed_status_and_body_witness :
  HeaderWrote Model.fresh = false ∧
  ∃ s hdr,
    wire (@WriteHeader Model.env 999 Model.fresh) = [EvWriteHeader s hdr] ∧
    (Model.IsStatusCode s = true ∨ s = 200 ∨ s = 421) ∧
    Status (@WriteHeader Model.env 999 Model.fresh) = s.
Proof.
  split; [reflexivity|].
  destruct (@committed_status_and_body Model.env 999 Model.fresh eq_refl)
    as (s & hdr & Hwire & Hclass & Hquiet).
  exists s, hdr. split; [exact Hwire|]. split; [exact Hclass|].
  apply (Hquiet eq_refl).
Defined.

Lemma hook_write_precedes_header_witness :
  let r := Model.with_hooks [0%nat] [] Model.fresh in
  HeaderWrote r = false ∧
  wire (@WriteHeader writing_hooks 200 r)
  = [EvWrite Model.hello; EvWriteHeader 200 ∅].
Proof.
  intros r. split; [reflexivity|].
  apply (@hook_write_precedes_header writing_hooks 0%nat Model.hello 200 r
           eq_refl eq_refl).
  intros r0 Hflag. symmetry.
  by rewrite (@Write_committed writing_hooks Model.hello r0 Hflag).
Defined.

Lemma exported_methods_respect_gate_witness :
  @respects_gate writing_hooks 0%nat.
Proof.
  apply (@exported_methods_respect_gate writing_hooks 0%nat).
  intros r Hflag. right. left. exists Model.hello.
  by rewrite (@Write_committed writing_hooks Model.hello r Hflag).
Defined.

Lemma race_either_wins_witness :
  HeaderWrote Model.fresh = false ∧
  Status (@WriteHeader Model.env 200 Model.fresh)
  ≠ Status (@WriteHeader Model.env 404 Model.fresh).
Proof.
  split; [reflexivity|].
  destruct (@race_either_wins Model.env 200 404 Model.fresh eq_refl
              (Model_hooks_respect_gate _))
    as (_ & _ & Hdiffer).
  apply Hdiffer; (reflexivity || discriminate).
Defined.

Lemma header_accessors_roundtrip_witness :
  http.CanonicalHeaderKey "Accept" ≠ http.CanonicalHeaderKey "vary" ∧
  Get "Accept" (Set_ "vary" "Origin" (Set_ "Accept" "text/html" Model.fresh))
    = "text/html".
Proof.
  assert (http.CanonicalHeaderKey "Accept" ≠ http.CanonicalHeaderKey "vary")
    as Hne by (vm_compute; discriminate).
  split; [exact Hne|].
  destruct (header_accessors_roundtrip "vary" "Origin"
              (Set_ "Accept" "text/html" Model.fresh))
    as (_ & _ & _ & _ & Hother).
  destruct (Hother "Accept" Hne) as [-> _].
  apply (header_accessors_roundtrip "Accept" "text/html" Model.fresh).
Defined.

Lemma ResetHeader_idempotent_witness :
  let r := Set_ "X-Custom" "1" (Set_ "Accept" "text/html" Model.fresh) in
  ∃ r1,
    ResetHeader [Some defaultHeaderFilterReg] r = Returned r1 ∧
    ResetHeader [Some defaultHeaderFilterReg] r1 = Returned r1 ∧
    header r1 !! "X-Custom" = None.
Proof.
  intros r.
  destruct (ResetHeader_idempotent defaultHeaderFilterReg [] r)
    as (r1 & Hrun & Hagain & _ & Hkept).
  exists r1. split; [exact Hrun|]. split; [exact Hagain|].
  destruct (header r1 !! "X-Custom") as [v|] eqn:Hx; [|reflexivity].
  assert (defaultHeaderFilterReg "X-Custom" = true) as Hmatch.
  { apply Hkept. by rewrite Hx. }
  discriminate Hmatch.
Defined.
